(** * list-prs-for-file: the index of pull requests touching a file

    A shallow embedding of [source/features/list-prs-for-file.tsx]:
    the aggregation loop of [getPrsByFile], the two consumers
    [addToSingleFile] and [addToEditingFile], and the collaborators the
    feature is wired to (the stale-while-revalidate cache around
    [getPrsByFile] and the selector observer).

    Modelling conventions.
    - The own properties of a [Record<string, number[]>] are a finite map
      from paths to lists of pull-request numbers
      ([gmap string (list Z)]).  The object is a plain object: a read
      [object[name]] that finds no own property goes on to
      [Object.prototype], so that [name] may yield a function or the
      prototype itself instead of [undefined] ([JsObject.get]).
    - A pull-request number is a JavaScript number holding an integer: [Z].
    - [Array.prototype.push] on the array stored at a key is an update of
      the map at that key; no other reference to that array exists while
      the loop runs.
    - An exception thrown in an [async] function is the rejection of its
      promise. *)

From Stdlib Require Import Ascii.
From stdpp Require Import strings list gmap fin_maps.

Local Open Scope string_scope.
Local Open Scope list_scope.
Local Open Scope Z_scope.

(** ** The GraphQL answer *)

Module Api.

(** [files(first: 100) { nodes { path } }] *)
Record FileNode := mkFileNode { path : string }.
Record FileConnection := mkFiles { nodes : list FileNode }.

(** [pullRequests(...) { nodes { number files {...} } }] *)
Record PullRequest := mkPullRequest {
  number : Z;
  files : FileConnection
}.

(** The record [{number: n, files: [p1, p2, ...]}] as the examples write it. *)
Definition record (n : Z) (paths : list string) : PullRequest :=
  mkPullRequest n (mkFiles (mkFileNode <$> paths)).

Definition paths_of (pr : PullRequest) : list string :=
  path <$> nodes (files pr).

End Api.

(** ** Promises, as the value they settle to *)

Module Async.

Inductive Settled (A : Type) : Type :=
| Fulfilled (a : A)
| Rejected (reason : string).
Arguments Fulfilled {A} a.
Arguments Rejected {A} reason.

(** [await p; return f(value)]: a rejection passes through. *)
Definition then_ {A B : Type} (f : A → B) (p : Settled A) : Settled B :=
  match p with
  | Fulfilled a => Fulfilled (f a)
  | Rejected reason => Rejected reason
  end.

(** [for (const x of l) body]: the loop carries its state from one
    iteration to the next and ends at the first exception. *)
Fixpoint for_of {A S : Type} (body : S → A → Settled S) (state : S)
    (l : list A) : Settled S :=
  match l with
  | [] => Fulfilled state
  | x :: l =>
      match body state x with
      | Fulfilled state => for_of body state l
      | Rejected reason => Rejected reason
      end
  end.

End Async.

(** ** Reading a property of a plain object *)

Module JsObject.

(** What [Object.prototype] holds under a name: nothing, one of its
    functions, or the accessor [__proto__]. *)
Inductive Inherited : Type := NoMember | Method | ProtoAccessor.

(** The names of the functions of [Object.prototype]. *)
Definition method_names : list string :=
  [ "constructor"; "hasOwnProperty"; "isPrototypeOf"; "propertyIsEnumerable";
    "toLocaleString"; "toString"; "valueOf";
    "__defineGetter__"; "__defineSetter__";
    "__lookupGetter__"; "__lookupSetter__" ].

#[global] Instance Inherited_eq_dec : EqDecision Inherited.
Proof. solve_decision. Defined.

Definition inherited (name : string) : Inherited :=
  if bool_decide (name = "__proto__") then ProtoAccessor
  else if bool_decide (name ∈ method_names) then Method
  else NoMember.

(** The value of [object[name]] where the own properties of [object] are
    arrays of numbers. *)
Inductive Value : Type :=
| Undefined
| Array (items : list Z)
| InheritedFunction
| ObjectPrototype.

(** [object[name]]: the own property if there is one, what the prototype
    holds otherwise. *)
Definition get (object : gmap string (list Z)) (name : string) : Value :=
  match object !! name with
  | Some items => Array items
  | None =>
      match inherited name with
      | NoMember => Undefined
      | Method => InheritedFunction
      | ProtoAccessor => ObjectPrototype
      end
  end.

(** The message of the exceptions met here is not modelled. *)
Definition TypeError : string := "TypeError".

End JsObject.

(** ** The aggregation loop of [getPrsByFile] *)

Module IndexBuilder.
Import Api Async JsObject.

Abbreviation Index := (gmap string (list Z)).

(** The bound written in [files[path].length < 10]. *)
Definition cap : nat := 10.

(** Body of the inner loop, for one [{path}] of [pr.files.nodes]:
    [files[path] = files[path] ?? [];
     if (files[path].length < 10) files[path].push(pr.number);]
    - [files[path]] is [undefined] or an own array: the array, a new
      empty one in the first case, is stored under [path] and gets the
      number unless it has 10 entries.
    - [path] is [__proto__]: the read gives [Object.prototype], the
      assignment goes to the setter and sets the prototype to what it
      is, and [Object.prototype.length] is [undefined], which is not
      below 10: nothing happens.
    - [path] names a function of [Object.prototype]: the function is
      stored as an own property, its [length], 2 at most, is below 10,
      and a function has no [push]: the call throws a [TypeError]. *)
Definition visit_path (prNumber : Z) (files : Index) (p : string)
    : Settled Index :=
  let store (prs : list Z) : Settled Index :=
    let files := <[p := prs]> files in
    if bool_decide (length prs < cap)%nat
    then Fulfilled (<[p := prs ++ [prNumber]]> files)
    else Fulfilled files in
  match get files p with
  | Undefined => store []
  | Array prs => store prs
  | ObjectPrototype => Fulfilled files
  | InheritedFunction => Rejected TypeError
  end.

(** [for (const {path} of pr.files.nodes) ...] *)
Definition visit_pr (files : Index) (pr : PullRequest) : Settled Index :=
  for_of (visit_path (number pr)) files (paths_of pr).

(** [for (const pr of repository.pullRequests.nodes) ...], from any
    starting index. *)
Definition aggregate (files : Index) (prs : list PullRequest) : Settled Index :=
  for_of visit_pr files prs.

(** [const files = {}; for ...; return files;] *)
Definition build (prs : list PullRequest) : Settled Index := aggregate ∅ prs.

(** The list read at a key, with a missing property read as the empty
    list. *)
Definition at_key (files : Index) (k : string) : list Z :=
  default [] (files !! k).

(** The contributions of one record to key [k]: its number, once for
    every occurrence of [k] among its file paths. *)
Definition contributions_of (k : string) (pr : PullRequest) : list Z :=
  (λ _, number pr) <$> filter (λ p, p = k) (paths_of pr).

(** The contribution sequence for [k] over the records in processing
    order. *)
Definition contributions (k : string) (prs : list PullRequest) : list Z :=
  prs ≫= contributions_of k.

(** What one contribution does to the list of its key, seen as a list. *)
Definition push_capped (prs : list Z) (n : Z) : list Z :=
  if bool_decide (length prs < cap)%nat then prs ++ [n] else prs.

(** The same on the property itself, which may be missing. *)
Definition push_at (o : option (list Z)) (n : Z) : option (list Z) :=
  Some (push_capped (default [] o) n).

(** The records that have [k] among their file paths, in processing
    order. *)
Definition touching (k : string) (prs : list PullRequest) : list PullRequest :=
  filter (λ pr, k ∈ paths_of pr) prs.

(** A name under which [Object.prototype] holds nothing. *)
Definition ordinary (name : string) : Prop := inherited name = NoMember.

#[global] Instance ordinary_dec (name : string) : Decision (ordinary name).
Proof. unfold ordinary. apply _. Defined.

(** No file path of the records is the name of a function of
    [Object.prototype]. *)
Definition clean (prs : list PullRequest) : Prop :=
  Forall (λ p, inherited p ≠ Method) (prs ≫= paths_of).

#[global] Instance clean_dec (prs : list PullRequest) : Decision (clean prs).
Proof. unfold clean. apply _. Defined.

(** Every own key of the index is an ordinary name. *)
Definition well_keyed (files : Index) : Prop :=
  ∀ k, is_Some (files !! k) → ordinary k.

End IndexBuilder.

(** ** The cache wrapped around [getPrsByFile] *)

Module CacheStore.
Import Async.

Abbreviation Timestamp := N (only parsing).

Record CacheEntry (V : Type) : Type := mkEntry {
  value : V;
  storedAt : Timestamp;
  scopeKey : string
}.
Arguments mkEntry {V} value storedAt scopeKey.
Arguments value {V} c.
Arguments storedAt {V} c.
Arguments scopeKey {V} c.

(** Durations in milliseconds. *)
Record Policy : Type := mkPolicy {
  maxAge : N;
  staleWhileRevalidate : N
}.

Inductive Freshness : Type := Fresh | Stale | Expired.

Section Store.
Context {V : Type}.

Abbreviation Store := (gmap string (CacheEntry V)).

(** Modelled from the spec: the age classes of an entry.  The cache
    library behind [cache.function] is not among the sources; the
    spec's CacheStore has an entry served as it is up to [maxAge],
    served stale while a refresh runs up to
    [maxAge + staleWhileRevalidate], and refetched beyond. *)
Definition freshness (policy : Policy) (now : Timestamp)
    (entry : CacheEntry V) : Freshness :=
  let age := (now - storedAt entry)%N in
  if (age <=? maxAge policy)%N then Fresh
  else if (age <=? maxAge policy + staleWhileRevalidate policy)%N then Stale
  else Expired.

(** Modelled from the spec: what a settled producer call does to the
    storage of scope [k].  The cache library is not among the sources;
    in the spec a resolved value is persisted with its timestamp and
    scope key, replacing the entry, and a failure leaves the entry. *)
Definition refresh (k : string) (now : Timestamp) (produced : Settled V)
    (store : Store) : Store :=
  match produced with
  | Fulfilled v => <[k := mkEntry v now k]> store
  | Rejected _ => store
  end.

(** Modelled from the spec: [get(scopeKey, producer, policy)].  The
    cache library is not among the sources.  [produced] is what the
    producer settles to if this read invokes it.  From the spec: with
    no entry the read awaits the producer and rejects if it rejects;
    a fresh entry is returned; a stale entry is returned at once and
    refreshed in the background, a failed refresh being swallowed; an
    entry past both windows makes the read await the producer, and if
    that fails the previous value is returned and the entry is
    logically deleted. *)
Definition get (k : string) (produced : Settled V) (policy : Policy)
    (now : Timestamp) (store : Store) : Settled V * Store :=
  match store !! k with
  | None => (produced, refresh k now produced store)
  | Some entry =>
      match freshness policy now entry with
      | Fresh => (Fulfilled (value entry), store)
      | Stale => (Fulfilled (value entry), refresh k now produced store)
      | Expired =>
          match produced with
          | Fulfilled v => (Fulfilled v, refresh k now produced store)
          | Rejected _ => (Fulfilled (value entry), delete k store)
          end
      end
  end.

(** Modelled from the spec: caller-invoked invalidation, which the spec
    names as the other way an entry is deleted; the cache library is
    not among the sources. *)
Definition invalidate (k : string) (store : Store) : Store :=
  delete k store.

End Store.

End CacheStore.

(** ** The cached [getPrsByFile] *)

Module PrsByFile.
Import Api IndexBuilder Async CacheStore.

(** The identity of the repository of the current page. *)
Record Repository : Type := mkRepository { nameWithOwner : string }.

(** Modelled from the spec: [cacheByRepo] of [github-helpers], which is
    not among the sources; the spec derives the scope key from the
    current repository identity. *)
Definition cacheByRepo (repo : Repository) : string := nameWithOwner repo.

(** [{maxAge: {hours: 2}, staleWhileRevalidate: {days: 9}}] *)
Definition policy : Policy :=
  mkPolicy (2 * 60 * 60 * 1000) (9 * 24 * 60 * 60 * 1000).

(** The producer: it awaits the GraphQL answer, whose rejection it passes
    on, and aggregates [repository.pullRequests.nodes]; an exception of
    the loop rejects it. *)
Definition producer (answer : Settled (list PullRequest)) : Settled Index :=
  match answer with
  | Fulfilled prs => build prs
  | Rejected reason => Rejected reason
  end.

(** [cache.function('files-with-prs', producer, {..., cacheKey: cacheByRepo})] *)
Definition getPrsByFile (repo : Repository) (answer : Settled (list PullRequest))
    (now : N) (store : gmap string (CacheEntry Index))
    : Settled Index * gmap string (CacheEntry Index) :=
  get (cacheByRepo repo) (producer answer) policy now store.

End PrsByFile.

(** ** The selector observer *)

Module SelectorObserver.

(** A handle on one concrete element instance. *)
Abbreviation Element := nat (only parsing).

(** Modelled from the spec: the state of one registration of the
    observer, which is not among the sources: the callback invocations
    made so far, oldest first, and whether its signal has been aborted. *)
Record Watch : Type := mkWatch {
  dispatched : list Element;
  aborted : bool
}.

(** Modelled from the spec: what can happen to a registration after the
    call, the observer not being among the sources: a mutation adds
    elements to the document, or the signal is aborted. *)
Inductive Event : Type :=
| Added (els : list Element)
| Abort.

Section Observe.
(** Whether an element matches a selector pattern. *)
Variable matches : string → Element → bool.
Variable selector : string.

(** Modelled from the spec: the dispatch of one candidate element.
    [helpers/selector-observer] is not among the sources; in the spec
    nothing is dispatched once the signal is cancelled, and the
    callback is never invoked twice for the same element instance. *)
Definition dispatch (w : Watch) (el : Element) : Watch :=
  if aborted w then w
  else if matches selector el && bool_decide (el ∉ dispatched w)
  then mkWatch (dispatched w ++ [el]) (aborted w)
  else w.

(** Modelled from the spec: [observe(selector, callback, {signal})],
    not among the sources; it scans the current document once, in
    document order. *)
Definition observe (document : list Element) (signalAborted : bool) : Watch :=
  foldl dispatch (mkWatch [] signalAborted) document.

(** Modelled from the spec: the handling of one event, the observer not
    being among the sources: the elements of a mutation are handled in
    arrival order; an abort stops every later dispatch. *)
Definition step (w : Watch) (ev : Event) : Watch :=
  match ev with
  | Added els => foldl dispatch w els
  | Abort => mkWatch (dispatched w) true
  end.

(** Modelled from the spec: a registration from its call through a trace
    of events, the observer not being among the sources. *)
Definition run (document : list Element) (signalAborted : bool)
    (evs : list Event) : Watch :=
  foldl step (observe document signalAborted) evs.

(** The elements of a sequence that match the selector. *)
Definition matching (els : list Element) : list Element :=
  filter (λ el, matches selector el = true) els.

End Observe.

(** How many times the callback was invoked for [el]. *)
Definition invocations (w : Watch) (el : Element) : nat :=
  length (filter (λ x, x = el) (dispatched w)).

(** Every element some mutation of the trace brings. *)
Definition added (evs : list Event) : list Element :=
  evs ≫= λ ev, match ev with Added els => els | Abort => [] end.

(** The elements brought before the signal is aborted. *)
Fixpoint added_before_abort (evs : list Event) : list Element :=
  match evs with
  | [] => []
  | Added els :: evs => els ++ added_before_abort evs
  | Abort :: _ => []
  end.

(** A sequence with every repetition of an earlier element left out. *)
Fixpoint first_occurrences (l : list Element) : list Element :=
  match l with
  | [] => []
  | x :: l => x :: filter (λ y, y ≠ x) (first_occurrences l)
  end.

End SelectorObserver.

(** ** The document *)

Module Dom.

#[local] Set Warnings "-register-all".

Inductive Node : Type :=
| Text (s : string)
| Num (n : Z)
| El (tag className : string) (attrs : list (string * string))
     (children : list Node).

(** The children of the document root, and an element of it named by the
    child indexes leading to it; the empty path names a detached node. *)
Abbreviation Document := (list Node) (only parsing).
Abbreviation Handle := (list nat) (only parsing).

Definition insert_at (i : nat) (new : Node) (siblings : list Node) : list Node :=
  take i siblings ++ new :: drop i siblings.

(** [ChildNode.before] ([offset = 0]) and [ChildNode.after] ([offset = 1]):
    the new node becomes a sibling of the element; nothing happens when
    the element has no parent. *)
Fixpoint insert_near (offset : nat) (h : Handle) (new : Node)
    (siblings : list Node) : list Node :=
  match h with
  | [] => siblings
  | i :: h' =>
      match h' with
      | [] =>
          if bool_decide (i < length siblings)%nat
          then insert_at (i + offset) new siblings
          else siblings
      | _ :: _ =>
          match siblings !! i with
          | Some (El tag className attrs children) =>
              <[i := El tag className attrs (insert_near offset h' new children)]>
                siblings
          | _ => siblings
          end
      end
  end.

Definition before (h : Handle) (new : Node) (doc : Document) : Document :=
  insert_near 0 h new doc.

Definition after (h : Handle) (new : Node) (doc : Document) : Document :=
  insert_near 1 h new doc.

(** [element.classList.add(name)] *)
Definition classList_add (name : string) (node : Node) : Node :=
  match node with
  | El tag className attrs children =>
      El tag (String.append className (String.append " " name)) attrs children
  | _ => node
  end.

(** [anchor.hash = fragment]: the setter parses the [href] of the
    anchor, sets the fragment of that URL and writes the URL back to
    [href]; an anchor without [href] is left as it is.  The URL
    computation is [withFragment]. *)
Definition set_hash (withFragment : string → string → string)
    (fragment : string) (node : Node) : Node :=
  match node with
  | El tag className attrs children =>
      El tag className
        ((λ attr : string * string,
            if bool_decide (attr.1 = "href")
            then (attr.1, withFragment attr.2 fragment)
            else attr) <$> attrs)
        children
  | _ => node
  end.

(** The node a handle names, if the path leads to one. *)
Fixpoint node_at (h : Handle) (siblings : list Node) : option Node :=
  match h with
  | [] => None
  | i :: h' =>
      match h' with
      | [] => siblings !! i
      | _ :: _ =>
          match siblings !! i with
          | Some (El _ _ _ children) => node_at h' children
          | _ => None
          end
      end
  end.

(** The handle of the position just after the one [h] names, under the
    same parent. *)
Fixpoint next_sibling (h : Handle) : Handle :=
  match h with
  | [] => []
  | i :: h' =>
      match h' with
      | [] => [S i]
      | _ :: _ => i :: next_sibling h'
      end
  end.

(** The values of the [href] attributes in a node, in document order. *)
Fixpoint links (node : Node) : list string :=
  match node with
  | El _ _ attrs children =>
      (snd <$> filter (λ attr, attr.1 = "href") attrs) ++ (children ≫= links)
  | _ => []
  end.

End Dom.

(** ** Strings and arrays of the standard library, as far as used *)

Module Js.

(** [s.split(sep)] for a one-character separator; [cur] is the segment
    being read. *)
Fixpoint split_from (sep : Ascii.ascii) (cur : string) (s : string) : list string :=
  match s with
  | EmptyString => [cur]
  | String c s' =>
      if Ascii.eqb c sep
      then cur :: split_from sep EmptyString s'
      else split_from sep (String.append cur (String c EmptyString)) s'
  end.

Definition split (sep : Ascii.ascii) (s : string) : list string :=
  split_from sep EmptyString s.

(** [array.slice(-1)] *)
Definition slice_last {A : Type} (l : list A) : list A :=
  drop (length l - 1) l.

(** [String(array)] *)
Definition array_to_string (l : list string) : string :=
  String.concat "," l.

(** The part of [s] after its last separator, all of [s] if it has none. *)
Definition last_segment (sep : Ascii.ascii) (s : string) : string :=
  default EmptyString (last (split sep s)).

End Js.

(** ** The feature *)

Module Feature.
Import Api IndexBuilder Async JsObject Dom.

Section Render.
(** [buildRepoURL] of [github-helpers], the icon component, the
    browser test, the conversion [Number(...)], whose result is [None]
    when it is no integer, and the URL an anchor's [href] becomes when
    its fragment is set, are taken as given. *)
Variable buildRepoURL : string → Z → string → string.
Variable GitPullRequestIcon : string → Node.
Variable isChrome : bool.
Variable Number : string → option Z.
Variable withFragment : string → string → string.

Definition getPRUrl (prNumber : Z) : string :=
  buildRepoURL "pull" prNumber "files".

Definition getHovercardUrl (prNumber : Z) : string :=
  buildRepoURL "pull" prNumber "hovercard".

Definition getDropdown (prs : list Z) : Node :=
  El "details" "dropdown details-reset details-overlay flex-self-center" []
    [ El "summary" "btn btn-sm" []
        [ GitPullRequestIcon "v-align-middle";
          El "span" "v-align-middle" []
            [Text " "; Num (Z.of_nat (length prs)); Text " "];
          El "div" "dropdown-caret" [] [] ];
      El "details-menu" "dropdown-menu dropdown-menu-sw" []
        (El "div" "dropdown-header" [] [Text "File touched by PRs"]
         :: ((λ prNumber,
               El "a" "dropdown-item"
                 [ ("href", getPRUrl prNumber);
                   ("data-hovercard-url", getHovercardUrl prNumber) ]
                 [Text "#"; Num prNumber]) <$> prs)) ].

Definition getSingleButton (prNumber : Z) : Node :=
  El "a" "btn btn-sm flex-self-center"
    [ ("href", getPRUrl prNumber);
      ("data-hovercard-url", getHovercardUrl prNumber) ]
    [ GitPullRequestIcon "v-align-middle";
      El "span" "v-align-middle" [] [Text " #"; Num prNumber] ].

(** [path] is [new GitHubURL(location.href).filePath] and [prsByFile]
    what [await getPrsByFile()] settles to.  [prsByFile[path]] is a read
    of a plain object: [undefined] returns at [if (!prs)]; a function or
    [Object.prototype], read when [path] names an inherited member, is
    not [undefined] and is not iterable, so [const [prNumber] = prs]
    throws a [TypeError]. *)
Definition addToSingleFile (path : string) (prsByFile : Settled Index)
    (moreFileActionsDropdown : Handle) (doc : Document)
    : Settled unit * Document :=
  match prsByFile with
  | Rejected reason => (Rejected reason, doc)
  | Fulfilled prsByFile =>
      match JsObject.get prsByFile path with
      | Undefined => (Fulfilled (), doc)
      | Array prs =>
          let button :=
            match prs with
            | [prNumber] => getSingleButton prNumber
            | _ => getDropdown prs
            end in
          (Fulfilled (), before moreFileActionsDropdown button doc)
      | InheritedFunction | ObjectPrototype => (Rejected TypeError, doc)
      end
  end.

(** [new URLSearchParams(location.search).get('pr')?.split('/').slice(-1)],
    [prParam] being the value of the [pr] parameter, if any. *)
Definition editingPRNumber (prParam : option string) : option (list string) :=
  (λ value, Js.slice_last (Js.split "/"%char value)) <$> prParam.

(** The button of one pull request in the warning's button group. *)
Definition groupButton (path : string) (pr : Z) : Node :=
  let button := classList_add "BtnGroup-item" (getSingleButton pr) in
  if isChrome
  then set_hash withFragment (String.append ":~:text=" path) button
  else button.

(** The warning placed after the file. *)
Definition warning (path : string) (prs : list Z) : Node :=
  El "div" "form-warning p-3 mb-3 mx-lg-3" []
    match prs with
    | [prNumber] =>
        [ Text "Careful, PR ";
          El "a" "" [("href", getPRUrl prNumber)] [Text "#"; Num prNumber];
          Text " is already touching this file" ]
    | _ =>
        [ Text "Careful, "; Num (Z.of_nat (length prs));
          Text " open PRs are already touching this file";
          El "span" "ml-2 BtnGroup" [] (groupButton path <$> prs) ]
    end.

(** As in [addToSingleFile], [prsByFile[path]] is a read of a plain
    object: for a function or [Object.prototype], [prs.filter] is not a
    function and [prs] is not iterable, so either way a [TypeError] is
    thrown before anything is inserted. *)
Definition addToEditingFile (path : string) (prsByFile : Settled Index)
    (prParam : option string) (file : Handle) (doc : Document)
    : Settled unit * Document :=
  match prsByFile with
  | Rejected reason => (Rejected reason, doc)
  | Fulfilled prsByFile =>
      match JsObject.get prsByFile path with
      | Undefined => (Fulfilled (), doc)
      | Array prs =>
          match editingPRNumber prParam with
          | Some editing =>
              let prs :=
                filter (λ pr, Some pr ≠ Number (Js.array_to_string editing)) prs in
              match prs with
              | [] => (Fulfilled (), doc)
              | _ :: _ => (Fulfilled (), after file (warning path prs) doc)
              end
          | None => (Fulfilled (), after file (warning path prs) doc)
          end
      | InheritedFunction | ObjectPrototype => (Rejected TypeError, doc)
      end
  end.

End Render.

Import SelectorObserver.

Definition quote : string := String (Ascii.ascii_of_nat 34) EmptyString.

(** [observe('[aria-label=<quote>More file actions<quote>]', addToSingleFile, {signal})] *)
Definition initSingleFile (matches : string → nat → bool)
    (document : list nat) (signalAborted : bool) : Watch :=
  observe matches
    (String.concat quote ["[aria-label="; "More file actions"; "]"])
    document signalAborted.

(** [observe('.file', addToEditingFile, {signal})] *)
Definition initEditingFile (matches : string → nat → bool)
    (document : list nat) (signalAborted : bool) : Watch :=
  observe matches ".file" document signalAborted.

End Feature.

(** ** Facts about the aggregation loop *)

Module IndexFacts.
Import Api Async JsObject IndexBuilder.

Lemma length_push_capped l n :
  (length l ≤ cap → length (push_capped l n) ≤ cap)%nat.
Proof.
  unfold push_capped. case_bool_decide; [|done].
  rewrite length_app. cbn. lia.
Qed.

Lemma foldl_push_capped ns l :
  (length l ≤ cap)%nat → foldl push_capped l ns = take cap (l ++ ns).
Proof.
  revert l. induction ns as [|n ns IH]; intros l Hl; cbn [foldl].
  - by rewrite app_nil_r, firstn_all2.
  - rewrite IH by by apply length_push_capped.
    unfold push_capped. case_bool_decide.
    + by rewrite <-app_assoc.
    + rewrite !take_app_le by lia. done.
Qed.

Lemma foldl_push_at ns o :
  foldl push_at o ns =
  match ns with
  | [] => o
  | _ => Some (foldl push_capped (default [] o) ns)
  end.
Proof.
  revert o. induction ns as [|n ns IH]; intros o; [done|].
  cbn [foldl]. rewrite IH. by destruct ns.
Qed.

Lemma prefix_foldl_push_capped ns l : l `prefix_of` foldl push_capped l ns.
Proof.
  revert l. induction ns as [|n ns IH]; intros l; [done|].
  cbn [foldl]. etrans; [|apply IH].
  unfold push_capped. case_bool_decide; [by apply prefix_app_r|done].
Qed.

Lemma contributions_cons k pr prs :
  contributions k (pr :: prs) = contributions_of k pr ++ contributions k prs.
Proof. done. Qed.

Lemma contributions_app k prs more :
  contributions k (prs ++ more) = contributions k prs ++ contributions k more.
Proof. unfold contributions. apply bind_app. Qed.

Lemma elem_of_contributions k prs n :
  n ∈ contributions k prs ↔
  ∃ pr, pr ∈ prs ∧ number pr = n ∧ k ∈ paths_of pr.
Proof.
  unfold contributions, contributions_of. rewrite list_elem_of_bind.
  split.
  - intros (pr & Hn & Hpr). exists pr. split; [done|].
    apply list_elem_of_fmap in Hn as (p & -> & Hp).
    apply list_elem_of_filter in Hp as [-> Hp]. done.
  - intros (pr & Hpr & <- & Hk). exists pr. split; [|done].
    apply list_elem_of_fmap. exists k. split; [done|].
    by apply list_elem_of_filter.
Qed.

Lemma clean_cons pr prs :
  clean (pr :: prs) ↔ Forall (λ p, inherited p ≠ Method) (paths_of pr) ∧ clean prs.
Proof. unfold clean. by rewrite bind_cons, Forall_app. Qed.


(** *** One path *)

Lemma get_own (files : Index) p l : files !! p = Some l → get files p = Array l.
Proof. intros H. unfold get. by rewrite H. Qed.

(** The step when [files[path]] is [undefined] or an own array. *)
Lemma visit_path_stores n (files : Index) p :
  get files p = Undefined ∨ (∃ l, files !! p = Some l) →
  visit_path n files p = Fulfilled (<[p := push_capped (at_key files p) n]> files).
Proof.
  unfold visit_path, push_capped, at_key, get.
  intros [Hget|[l Hl]].
  - destruct (files !! p) as [l|] eqn:Hp; [done|].
    destruct (inherited p); try done. cbn [default].
    rewrite bool_decide_eq_true_2 by (cbn; unfold cap; lia).
    by rewrite insert_insert_eq.
  - rewrite Hl. cbn [default]. unfold id. case_bool_decide.
    + by rewrite insert_insert_eq.
    + done.
Qed.

Lemma visit_path_full n (files : Index) k l :
  files !! k = Some l → length l = cap → visit_path n files k = Fulfilled files.
Proof.
  intros Hl Hfull. rewrite visit_path_stores by eauto.
  unfold at_key, push_capped. rewrite Hl. cbn [default].
  unfold id. rewrite bool_decide_eq_false_2 by lia. by rewrite insert_id.
Qed.

(** Whatever the index, a step that does not throw leaves the other keys
    alone and extends the list of its own key at most. *)
Lemma visit_path_step n (files files' : Index) p :
  visit_path n files p = Fulfilled files' →
  (∀ k, k ≠ p → files' !! k = files !! k)
  ∧ at_key files p `prefix_of` at_key files' p.
Proof.
  destruct (get files p) eqn:Hget.
  - rewrite visit_path_stores by eauto. intros [= <-]. split.
    + intros k Hk. by rewrite lookup_insert_ne.
    + unfold at_key at 2. rewrite lookup_insert_eq. cbn [default].
      unfold push_capped. case_bool_decide; [by apply prefix_app_r|done].
  - assert (∃ l, files !! p = Some l) as Hown.
    { unfold get in Hget. destruct (files !! p); [by eexists|].
      by destruct (inherited p). }
    rewrite visit_path_stores by eauto. intros [= <-]. split.
    + intros k Hk. by rewrite lookup_insert_ne.
    + unfold at_key at 2. rewrite lookup_insert_eq. cbn [default].
      unfold push_capped. case_bool_decide; [by apply prefix_app_r|done].
  - unfold visit_path. by rewrite Hget.
  - unfold visit_path. rewrite Hget. by intros [= <-].
Qed.

Lemma visit_pr_step (files files' : Index) pr :
  visit_pr files pr = Fulfilled files' →
  (∀ k, k ∉ paths_of pr → files' !! k = files !! k)
  ∧ (∀ k, at_key files k `prefix_of` at_key files' k).
Proof.
  unfold visit_pr. generalize (paths_of pr) as ps. intros ps. revert files.
  induction ps as [|p ps IH]; intros files; cbn [for_of].
  - by intros [= <-].
  - destruct (visit_path (number pr) files p) as [files1|] eqn:Hstep; [|done].
    intros Hrest. destruct (visit_path_step _ _ _ _ Hstep) as [Hother Hown].
    destruct (IH _ Hrest) as [IH1 IH2]. split.
    + intros k Hk. apply not_elem_of_cons in Hk as [Hne Hk].
      by rewrite IH1, Hother.
    + intros k. etrans; [|apply IH2].
      destruct (decide (k = p)) as [->|Hne]; [done|].
      unfold at_key. by rewrite Hother.
Qed.

(** *** From an index whose own keys are ordinary *)

Lemma well_keyed_empty : well_keyed ∅.
Proof. intros k [l Hl]. by rewrite lookup_empty in Hl. Qed.

Lemma well_keyed_insert (files : Index) p l :
  well_keyed files → ordinary p → well_keyed (<[p := l]> files).
Proof.
  intros Hwk Hp k. destruct (decide (p = k)) as [<-|Hne]; [done|].
  rewrite lookup_insert_ne by done. apply Hwk.
Qed.

Lemma well_keyed_missing (files : Index) p :
  well_keyed files → ¬ ordinary p → files !! p = None.
Proof.
  intros Hwk Hp. destruct (files !! p) eqn:E; [|done].
  destruct Hp. apply Hwk. by rewrite E.
Qed.

Lemma visit_path_ordinary n (files : Index) p :
  ordinary p →
  visit_path n files p = Fulfilled (<[p := push_capped (at_key files p) n]> files).
Proof.
  intros Hp. apply visit_path_stores. unfold get.
  destruct (files !! p) as [l|]; [right; by eexists|left].
  unfold ordinary in Hp. by rewrite Hp.
Qed.

Lemma visit_path_proto n (files : Index) p :
  well_keyed files → inherited p = ProtoAccessor →
  visit_path n files p = Fulfilled files.
Proof.
  intros Hwk Hp. unfold visit_path, get.
  rewrite well_keyed_missing by (done || unfold ordinary; congruence).
  by rewrite Hp.
Qed.

Lemma visit_path_method n (files : Index) p :
  well_keyed files → inherited p = Method →
  visit_path n files p = Rejected TypeError.
Proof.
  intros Hwk Hp. unfold visit_path, get.
  rewrite well_keyed_missing by (done || unfold ordinary; congruence).
  by rewrite Hp.
Qed.

(** The inner loop: it throws exactly when a path names a function of
    [Object.prototype]; otherwise the ordinary keys get their
    contributions and nothing else changes. *)
Lemma visit_paths_spec n ps (files : Index) :
  well_keyed files →
  match for_of (visit_path n) files ps with
  | Fulfilled files' =>
      Forall (λ p, inherited p ≠ Method) ps ∧ well_keyed files' ∧
      ∀ k, files' !! k =
        if decide (ordinary k)
        then foldl push_at (files !! k) ((λ _, n) <$> filter (λ p, p = k) ps)
        else files !! k
  | Rejected _ => ¬ Forall (λ p, inherited p ≠ Method) ps
  end.
Proof.
  revert files. induction ps as [|p ps IH]; intros files Hwk; cbn [for_of].
  { split; [constructor|]. split; [done|]. intros k. by destruct (decide _). }
  destruct (inherited p) eqn:Hp.
  - rewrite visit_path_ordinary by done.
    set (files1 := <[p := _]> files).
    specialize (IH files1 (well_keyed_insert _ _ _ Hwk Hp)).
    destruct (for_of _ files1 ps) as [files'|reason].
    + destruct IH as (Hok & Hwk' & Hlook).
      split; [constructor; [congruence|done]|]. split; [done|].
      intros k. rewrite Hlook. destruct (decide (ordinary k)) as [Hk|Hk].
      * rewrite filter_cons. destruct (decide (p = k)) as [->|Hne].
        -- cbn [fmap list_fmap foldl]. f_equal. subst files1.
           by rewrite lookup_insert_eq.
        -- subst files1. by rewrite lookup_insert_ne.
      * subst files1. rewrite lookup_insert_ne; [done|]. by intros ->.
    + intros HF. apply IH. by inversion HF.
  - rewrite visit_path_method by done.
    intros HF. by inversion HF.
  - rewrite visit_path_proto by done. specialize (IH files Hwk).
    destruct (for_of _ files ps) as [files'|reason].
    + destruct IH as (Hok & Hwk' & Hlook).
      split; [constructor; [congruence|done]|]. split; [done|].
      intros k. rewrite Hlook. destruct (decide (ordinary k)) as [Hk|Hk]; [|done].
      rewrite filter_cons_False; [done|]. intros ->.
      unfold ordinary in Hk. congruence.
    + intros HF. apply IH. by inversion HF.
Qed.

(** The whole loop, likewise. *)
Lemma aggregate_spec prs (files : Index) :
  well_keyed files →
  match aggregate files prs with
  | Fulfilled files' =>
      clean prs ∧ well_keyed files' ∧
      ∀ k, files' !! k =
        if decide (ordinary k)
        then foldl push_at (files !! k) (contributions k prs)
        else files !! k
  | Rejected _ => ¬ clean prs
  end.
Proof.
  unfold aggregate. revert files.
  induction prs as [|pr prs IH]; intros files Hwk; cbn [for_of].
  { split; [constructor|]. split; [done|]. intros k. by destruct (decide _). }
  pose proof (visit_paths_spec (number pr) (paths_of pr) files Hwk) as Hpr.
  unfold visit_pr at 1.
  destruct (for_of (visit_path (number pr)) files (paths_of pr))
    as [files1|reason].
  - destruct Hpr as (Hok1 & Hwk1 & Hlook1). specialize (IH files1 Hwk1).
    destruct (for_of visit_pr files1 prs) as [files'|reason].
    + destruct IH as (Hok & Hwk' & Hlook).
      split; [by apply clean_cons|]. split; [done|].
      intros k. rewrite Hlook, Hlook1.
      destruct (decide (ordinary k)); [|done].
      by rewrite contributions_cons, foldl_app.
    + rewrite clean_cons. tauto.
  - rewrite clean_cons. tauto.
Qed.

(** *** The built index *)

Lemma build_clean prs idx : build prs = Fulfilled idx → clean prs.
Proof.
  intros Hb. pose proof (aggregate_spec prs ∅ well_keyed_empty) as H.
  unfold build in Hb. rewrite Hb in H. tauto.
Qed.

Lemma build_well_keyed prs idx : build prs = Fulfilled idx → well_keyed idx.
Proof.
  intros Hb. pose proof (aggregate_spec prs ∅ well_keyed_empty) as H.
  unfold build in Hb. rewrite Hb in H. tauto.
Qed.

Lemma build_fulfils prs : clean prs → ∃ idx, build prs = Fulfilled idx.
Proof.
  intros Hc. pose proof (aggregate_spec prs ∅ well_keyed_empty) as H.
  unfold build. destruct (aggregate ∅ prs); [by eexists|done].
Qed.

Lemma build_rejects prs : ¬ clean prs → build prs = Rejected TypeError.
Proof.
  intros Hc. unfold build, aggregate.
  assert (∀ files, well_keyed files →
    match for_of visit_pr files prs with
    | Fulfilled _ => clean prs
    | Rejected reason => reason = TypeError
    end) as H.
  { clear Hc. induction prs as [|pr prs IH]; intros files Hwk; cbn [for_of].
    { constructor. }
    pose proof (visit_paths_spec (number pr) (paths_of pr) files Hwk) as Hpr.
    unfold visit_pr at 1.
    assert (∀ fs, well_keyed fs →
      match for_of (visit_path (number pr)) fs (paths_of pr) with
      | Fulfilled _ => True
      | Rejected reason => reason = TypeError
      end) as Hreason.
    { generalize (paths_of pr) as ps. intros ps.
      induction ps as [|p ps IHp]; intros fs Hfs; cbn [for_of]; [done|].
      destruct (inherited p) eqn:Hp.
      - rewrite visit_path_ordinary by done. apply IHp.
        by apply well_keyed_insert.
      - by rewrite visit_path_method.
      - rewrite visit_path_proto by done. by apply IHp. }
    specialize (Hreason files Hwk).
    destruct (for_of (visit_path (number pr)) files (paths_of pr))
      as [files1|reason]; [|done].
    destruct Hpr as (Hok1 & Hwk1 & _). specialize (IH files1 Hwk1).
    destruct (for_of visit_pr files1 prs); [|done].
    by apply clean_cons. }
  specialize (H ∅ well_keyed_empty).
  destruct (for_of visit_pr ∅ prs); [done|by subst].
Qed.

(** The property stored at [k] when the loop completes. *)
Lemma lookup_build prs idx k :
  build prs = Fulfilled idx →
  idx !! k =
  if decide (ordinary k)
  then match contributions k prs with
       | [] => None
       | c :: cs => Some (take cap (c :: cs))
       end
  else None.
Proof.
  intros Hb. pose proof (aggregate_spec prs ∅ well_keyed_empty) as H.
  unfold build in Hb. rewrite Hb in H. destruct H as (_ & _ & Hlook).
  rewrite Hlook, lookup_empty. destruct (decide (ordinary k)); [|done].
  rewrite foldl_push_at.
  destruct (contributions k prs) as [|c cs]; [done|].
  rewrite foldl_push_capped by (cbn; unfold cap; lia). done.
Qed.

Lemma at_key_build prs idx k :
  build prs = Fulfilled idx →
  at_key idx k = if decide (ordinary k) then take cap (contributions k prs) else [].
Proof.
  intros Hb. unfold at_key. rewrite (lookup_build prs idx k Hb).
  destruct (decide (ordinary k)); [|done].
  by destruct (contributions k prs).
Qed.

(** A stored list and its contributions. *)
Lemma lookup_build_Some prs idx k l :
  build prs = Fulfilled idx → idx !! k = Some l →
  ordinary k ∧ ∃ c cs, contributions k prs = c :: cs ∧ l = take cap (c :: cs).
Proof.
  intros Hb. rewrite (lookup_build prs idx k Hb).
  destruct (decide (ordinary k)); [|done].
  destruct (contributions k prs) as [|c cs]; [done|].
  intros [= <-]. split; [done|]. by exists c, cs.
Qed.


(** *** Contribution sequences *)

Lemma filter_none {A} (P : A → Prop) `{∀ x, Decision (P x)} (l : list A) :
  (∀ x, x ∈ l → ¬ P x) → filter P l = [].
Proof.
  induction l as [|x l IH]; intros HP; [done|].
  rewrite filter_cons_False by (apply HP; left).
  apply IH. intros y Hy. apply HP. by right.
Qed.

Lemma contributions_of_nil k pr :
  k ∉ paths_of pr → contributions_of k pr = [].
Proof.
  intros Hk. unfold contributions_of.
  rewrite filter_none; [done|]. intros p Hp ->. done.
Qed.

Lemma contributions_of_cons k pr :
  k ∈ paths_of pr → ∃ rest, contributions_of k pr = number pr :: rest.
Proof.
  intros Hk. unfold contributions_of.
  destruct (filter (λ p, p = k) (paths_of pr)) as [|p ps] eqn:E.
  - by destruct (filter_nil_not_elem_of (λ p, p = k) _ k E eq_refl).
  - by eexists.
Qed.

Lemma filter_eq_NoDup (k : string) (l : list string) :
  NoDup l → k ∈ l → filter (λ p, p = k) l = [k].
Proof.
  induction 1 as [|p l Hp Hnd IH]; [by intros ?%not_elem_of_nil|].
  intros [->|Hk]%elem_of_cons.
  - rewrite filter_cons_True by done. f_equal.
    apply filter_none. intros q Hq ->. done.
  - rewrite filter_cons_False by (intros ->; done). by apply IH.
Qed.

Lemma contributions_of_once k pr :
  NoDup (paths_of pr) → k ∈ paths_of pr → contributions_of k pr = [number pr].
Proof.
  intros Hnd Hk. unfold contributions_of. by rewrite filter_eq_NoDup.
Qed.

Lemma contributions_touching k prs :
  contributions k (touching k prs) = contributions k prs.
Proof.
  unfold touching. induction prs as [|pr prs IH]; [done|].
  rewrite filter_cons. destruct (decide (k ∈ paths_of pr)).
  - by rewrite !contributions_cons, IH.
  - by rewrite contributions_cons, contributions_of_nil.
Qed.

Lemma contributions_distinct_paths k prs :
  Forall (λ pr, NoDup (paths_of pr)) prs →
  contributions k prs = number <$> touching k prs.
Proof.
  unfold touching. induction 1 as [|pr prs Hpr _ IH]; [done|].
  rewrite contributions_cons, filter_cons, IH.
  destruct (decide (k ∈ paths_of pr)).
  - by rewrite contributions_of_once.
  - by rewrite contributions_of_nil.
Qed.

Lemma contributions_nil_iff k prs :
  contributions k prs = [] ↔ ∀ pr, pr ∈ prs → k ∉ paths_of pr.
Proof.
  split.
  - intros E pr Hpr Hk.
    destruct (contributions_of_cons k pr Hk) as [rest Hrest].
    assert (number pr ∈ contributions k prs) as Hin.
    { apply elem_of_contributions. by exists pr. }
    rewrite E in Hin. by apply not_elem_of_nil in Hin.
  - intros Hno. destruct (contributions k prs) as [|c cs] eqn:E; [done|].
    assert (c ∈ contributions k prs) as Hin by (rewrite E; left).
    apply elem_of_contributions in Hin as (pr & Hpr & _ & Hk).
    by destruct (Hno pr Hpr).
Qed.


(** *** Sizes *)

Lemma size_list_to_set_le (l : list string) :
  (size (list_to_set l : gset string) ≤ length l)%nat.
Proof.
  induction l as [|x l IH]; [by rewrite list_to_set_nil, size_empty|].
  rewrite list_to_set_cons, size_union_alt, size_singleton. cbn [length].
  assert (size (list_to_set l ∖ {[x]} : gset string)
          ≤ size (list_to_set l : gset string))%nat.
  { apply subseteq_size. intros y [Hy _]%elem_of_difference. exact Hy. }
  lia.
Qed.

Lemma length_all_paths (prs : list PullRequest) (b : nat) :
  Forall (λ pr, (length (paths_of pr) ≤ b)%nat) prs →
  (length (prs ≫= paths_of) ≤ length prs * b)%nat.
Proof.
  induction 1 as [|pr prs Hpr _ IH]; [done|].
  rewrite bind_cons, length_app. cbn [length]. lia.
Qed.


Lemma contributions_clean_touching k prs : clean prs → clean (touching k prs).
Proof.
  unfold clean, touching. rewrite !Forall_forall. intros Hc p Hp. apply Hc.
  apply list_elem_of_bind in Hp as (pr & Hp & Hpr).
  apply list_elem_of_filter in Hpr as [_ Hpr].
  apply list_elem_of_bind. by exists pr.
Qed.

(** The keys of a built index. *)
Lemma dom_build prs idx :
  build prs = Fulfilled idx →
  dom idx =@{gset string} list_to_set (filter ordinary (prs ≫= paths_of)).
Proof.
  intros Hb. apply set_eq. intros k.
  rewrite elem_of_dom, elem_of_list_to_set, list_elem_of_filter, list_elem_of_bind.
  rewrite (lookup_build prs idx k Hb). split.
  - destruct (decide (ordinary k)) as [Hk|]; [|by intros [? ?]].
    destruct (contributions k prs) as [|c cs] eqn:E; [by intros [? ?]|intros _].
    assert (c ∈ contributions k prs) as Hin by (rewrite E; left).
    apply elem_of_contributions in Hin as (pr & Hpr & _ & Hin).
    split; [done|]. by exists pr.
  - intros (Hk & pr & Hin & Hpr). rewrite decide_True by done.
    destruct (contributions k prs) as [|c cs] eqn:E; [|by eexists].
    by destruct (proj1 (contributions_nil_iff k prs) E pr Hpr).
Qed.

End IndexFacts.

(** ** The index built by [getPrsByFile] *)

(** C1. Every list of the built index has at most 10 entries; a list
    that has 10 entries is left as it is by a further contribution to its
    key, in any index, and so the list of a key that has reached 10
    entries stays the same whatever records follow. *)
Theorem per_key_cap :
  (∀ (prs : list Api.PullRequest) (idx : gmap string (list Z)) (k : string)
     (l : list Z),
     IndexBuilder.build prs = Async.Fulfilled idx →
     idx !! k = Some l → (length l ≤ 10)%nat)
  ∧ (∀ (files : gmap string (list Z)) (n : Z) (k : string) (l : list Z),
       files !! k = Some l → length l = 10%nat →
       IndexBuilder.visit_path n files k = Async.Fulfilled files)
  ∧ (∀ (prs more : list Api.PullRequest) (idx idx' : gmap string (list Z))
       (k : string) (l : list Z),
       IndexBuilder.build prs = Async.Fulfilled idx →
       idx !! k = Some l → length l = 10%nat →
       IndexBuilder.build (prs ++ more) = Async.Fulfilled idx' →
       idx' !! k = Some l).
Proof.
  split; [|split].
  - intros prs idx k l Hb Hl.
    destruct (IndexFacts.lookup_build_Some _ _ _ _ Hb Hl) as (_ & c & cs & _ & ->).
    rewrite length_take. unfold IndexBuilder.cap. lia.
  - intros files n k l Hl Hfull. by apply (IndexFacts.visit_path_full n files k l).
  - intros prs more idx idx' k l Hb Hl Hfull Hb'.
    destruct (IndexFacts.lookup_build_Some _ _ _ _ Hb Hl)
      as (Hk & c & cs & Hc & ->).
    rewrite (IndexFacts.lookup_build _ _ k Hb'), decide_True by done.
    rewrite IndexFacts.contributions_app, Hc. cbn [app]. f_equal.
    change (c :: cs ++ ?x) with ((c :: cs) ++ x).
    apply take_app_le. rewrite length_take in Hfull.
    unfold IndexBuilder.cap in *. lia.
Qed.

Lemma per_key_cap_witness :
  let prs := replicate 10 (Api.record 1 ["a.ts"]) in
  let idx : gmap string (list Z) := {[ "a.ts" := replicate 10 1 ]} in
  (length (replicate 10 1) ≤ 10)%nat ∧
  IndexBuilder.visit_path 2 idx "a.ts" = Async.Fulfilled idx ∧
  idx !! "a.ts" = Some (replicate 10 1).
Proof.
  intros prs idx.
  assert (Hb : IndexBuilder.build prs = Async.Fulfilled idx)
    by (vm_compute; reflexivity).
  assert (Hb' : IndexBuilder.build (prs ++ [Api.record 2 ["a.ts"]])
                = Async.Fulfilled idx) by (vm_compute; reflexivity).
  assert (H : idx !! "a.ts" = Some (replicate 10 1)) by (vm_compute; reflexivity).
  destruct per_key_cap as (Hcap & Hdrop & Hstay).
  split; [exact (Hcap prs idx "a.ts" _ Hb H)|]. split.
  - exact (Hdrop idx 2 "a.ts" _ H eq_refl).
  - exact (Hstay prs [Api.record 2 ["a.ts"]] idx idx "a.ts" _ Hb H eq_refl Hb').
Defined.



(** C3. The two records [{number: 10, files: [a.ts, b.ts]}] and
    [{number: 3, files: [a.ts]}], in that order, give the index
    [{a.ts: [10, 3], b.ts: [10]}]. *)
Theorem scenario_two_records :
  IndexBuilder.build [Api.record 10 ["a.ts"; "b.ts"]; Api.record 3 ["a.ts"]]
  = Async.Fulfilled {[ "a.ts" := [10; 3]; "b.ts" := [10] ]}.
Proof. vm_compute. reflexivity. Qed.



(** C8. Provenance: a key of the built index is a file path of some input
    record, and every number stored at a key is the number of an input
    record that has this key among its file paths. *)
Theorem provenance (prs : list Api.PullRequest) (idx : gmap string (list Z))
    (k : string) (l : list Z) :
  IndexBuilder.build prs = Async.Fulfilled idx →
  idx !! k = Some l →
  (∃ pr, pr ∈ prs ∧ k ∈ Api.paths_of pr) ∧
  (∀ n, n ∈ l → ∃ pr, pr ∈ prs ∧ Api.number pr = n ∧ k ∈ Api.paths_of pr).
Proof.
  intros Hb Hl.
  destruct (IndexFacts.lookup_build_Some _ _ _ _ Hb Hl) as (_ & c & cs & E & ->).
  split.
  - destruct (proj1 (IndexFacts.elem_of_contributions k prs c)) as (pr & ? & ? & ?).
    + rewrite E. apply list_elem_of_here.
    + by exists pr.
  - intros n Hn. apply IndexFacts.elem_of_contributions.
    rewrite E. by apply (subseteq_take IndexBuilder.cap).
Qed.

Lemma provenance_witness :
  let prs := [Api.record 10 ["a.ts"; "b.ts"]; Api.record 3 ["a.ts"]] in
  ∃ pr, pr ∈ prs ∧ Api.number pr = 3 ∧ "a.ts" ∈ Api.paths_of pr.
Proof.
  intros prs.
  assert (Hb : IndexBuilder.build prs
               = Async.Fulfilled {[ "a.ts" := [10; 3]; "b.ts" := [10] ]})
    by (vm_compute; reflexivity).
  assert (H : ({[ "a.ts" := [10; 3]; "b.ts" := [10] ]} : gmap string (list Z))
              !! "a.ts" = Some [10; 3]) by (vm_compute; reflexivity).
  apply (proj2 (provenance prs _ "a.ts" [10; 3] Hb H) 3).
  apply list_elem_of_further, list_elem_of_here.
Defined.

(** ** The cache around [getPrsByFile] *)

Module CacheFacts.
Import Async CacheStore.

Section Store.
Context {V : Type}.
Implicit Types (store : gmap string (CacheEntry V)) (produced : Settled V).

Lemma refresh_other k1 k2 now produced store :
  k1 ≠ k2 → refresh k1 now produced store !! k2 = store !! k2.
Proof.
  intros Hne. unfold refresh. destruct produced; [|done].
  by rewrite lookup_insert_ne.
Qed.

Lemma get_other k1 k2 produced policy now store :
  k1 ≠ k2 → (get k1 produced policy now store).2 !! k2 = store !! k2.
Proof.
  intros Hne. unfold get.
  destruct (store !! k1) as [entry|]; cbn [snd].
  - destruct (freshness policy now entry); cbn [snd];
      [done|by apply refresh_other|].
    destruct produced; cbn [snd].
    + by apply refresh_other.
    + by rewrite lookup_delete_ne.
  - by apply refresh_other.
Qed.

Lemma invalidate_other k1 k2 store :
  k1 ≠ k2 → invalidate k1 store !! k2 = store !! k2.
Proof. intros Hne. unfold invalidate. by rewrite lookup_delete_ne. Qed.

(** A read whose producer fails. *)
Lemma get_rejected k reason policy now store :
  (get k (Rejected reason) policy now store).1 =
  match store !! k with
  | None => Rejected reason
  | Some entry => Fulfilled (value entry)
  end.
Proof.
  unfold get. destruct (store !! k) as [entry|]; [|done].
  by destruct (freshness policy now entry).
Qed.

End Store.

Lemma cacheByRepo_inj : Inj (=) (=) PrsByFile.cacheByRepo.
Proof. intros [r1] [r2]. cbn. congruence. Qed.

End CacheFacts.


(** The scenario of the cache: the index of the two records is stored, the
    two hours of [maxAge] pass, and the next call, whose producer fails,
    resolves with the stored index. *)
Example scenario_stale_served repo reason :
  let first :=
    PrsByFile.getPrsByFile repo
      (Async.Fulfilled [Api.record 10 ["a.ts"; "b.ts"]; Api.record 3 ["a.ts"]])
      0 ∅ in
  (PrsByFile.getPrsByFile repo (Async.Rejected reason) 7200001 first.2).1
  = Async.Fulfilled {[ "a.ts" := [10; 3]; "b.ts" := [10] ]}.
Proof.
  intros first. unfold PrsByFile.getPrsByFile.
  cbn [PrsByFile.producer].
  rewrite CacheFacts.get_rejected. subst first.
  unfold PrsByFile.getPrsByFile, CacheStore.get. rewrite lookup_empty.
  cbn [snd PrsByFile.producer].
  assert (IndexBuilder.build
            [Api.record 10 ["a.ts"; "b.ts"]; Api.record 3 ["a.ts"]]
          = Async.Fulfilled {[ "a.ts" := [10; 3]; "b.ts" := [10] ]}) as ->
    by (vm_compute; reflexivity).
  cbn [CacheStore.refresh].
  by rewrite lookup_insert_eq.
Qed.

(** C5. Scope keys partition the storage: a read under [k1], whatever it
    refreshes or deletes, and an invalidation of [k1] leave the entry
    stored under any other key [k2], value and timestamp, as it was; the
    scope keys of two different repositories differ, so a call of
    [getPrsByFile] in one repository never touches the entry of another. *)
Theorem scopes_do_not_interact :
  (∀ (V : Type) (k1 k2 : string) (produced : Async.Settled V)
     (policy : CacheStore.Policy) (now : N)
     (store : gmap string (CacheStore.CacheEntry V)),
     k1 ≠ k2 →
     (CacheStore.get k1 produced policy now store).2 !! k2 = store !! k2 ∧
     CacheStore.invalidate k1 store !! k2 = store !! k2)
  ∧
  (∀ (repo1 repo2 : PrsByFile.Repository)
     (answer : Async.Settled (list Api.PullRequest)) (now : N)
     (store : gmap string (CacheStore.CacheEntry (gmap string (list Z)))),
     repo1 ≠ repo2 →
     PrsByFile.cacheByRepo repo1 ≠ PrsByFile.cacheByRepo repo2 ∧
     (PrsByFile.getPrsByFile repo1 answer now store).2
       !! PrsByFile.cacheByRepo repo2
     = store !! PrsByFile.cacheByRepo repo2 ∧
     CacheStore.invalidate (PrsByFile.cacheByRepo repo1) store
       !! PrsByFile.cacheByRepo repo2
     = store !! PrsByFile.cacheByRepo repo2).
Proof.
  split.
  - intros V k1 k2 produced policy now store Hne. split.
    + by apply CacheFacts.get_other.
    + by apply CacheFacts.invalidate_other.
  - intros repo1 repo2 answer now store Hne.
    assert (PrsByFile.cacheByRepo repo1 ≠ PrsByFile.cacheByRepo repo2) as Hk.
    { intros Heq. by apply Hne, CacheFacts.cacheByRepo_inj. }
    split; [done|]. split.
    + by apply CacheFacts.get_other.
    + by apply CacheFacts.invalidate_other.
Qed.

Lemma scopes_do_not_interact_witness :
  let repo1 := PrsByFile.mkRepository "octo/one" in
  let repo2 := PrsByFile.mkRepository "octo/two" in
  let store : gmap string (CacheStore.CacheEntry (gmap string (list Z))) :=
    {[ "octo/two" := CacheStore.mkEntry {[ "b.ts" := [7] ]} 5%N "octo/two" ]} in
  (PrsByFile.getPrsByFile repo1 (Async.Fulfilled [Api.record 10 ["a.ts"]]) 9 store).2
    !! "octo/two"
  = store !! "octo/two".
Proof.
  intros repo1 repo2 store.
  refine (proj1 (proj2 (proj2 scopes_do_not_interact repo1 repo2 _ 9%N store _))).
  discriminate.
Defined.

(** ** The selector observer *)

Module ObserverFacts.
Import SelectorObserver.

Lemma filter_all (P : nat → Prop) `{∀ x, Decision (P x)} (l : list nat) :
  (∀ x, x ∈ l → P x) → filter P l = l.
Proof.
  induction l as [|x l IH]; intros HP; [done|].
  rewrite filter_cons_True by (apply HP; left).
  f_equal. apply IH. intros y Hy. apply HP. by right.
Qed.

Lemma elem_of_first_occurrences l x : x ∈ first_occurrences l ↔ x ∈ l.
Proof.
  induction l as [|y l IH]; [done|]. cbn [first_occurrences].
  rewrite !elem_of_cons, list_elem_of_filter, IH.
  destruct (decide (x = y)); intuition congruence.
Qed.

Lemma NoDup_first_occurrences l : NoDup (first_occurrences l).
Proof.
  induction l as [|y l IH]; [constructor|]. cbn [first_occurrences].
  constructor; [|by apply NoDup_filter].
  rewrite list_elem_of_filter. tauto.
Qed.

Lemma first_occurrences_app l1 l2 :
  first_occurrences (l1 ++ l2) =
  first_occurrences l1 ++ filter (λ x, x ∉ l1) (first_occurrences l2).
Proof.
  induction l1 as [|y l1 IH]; cbn [first_occurrences app].
  - symmetry. apply filter_all. intros x _. apply not_elem_of_nil.
  - rewrite IH, filter_app, list_filter_filter. do 2 f_equal.
    apply list_filter_iff. intros x. rewrite not_elem_of_cons. tauto.
Qed.

Lemma first_occurrences_NoDup l : NoDup l → first_occurrences l = l.
Proof.
  induction 1 as [|y l Hy _ IH]; [done|]. cbn [first_occurrences].
  rewrite IH. f_equal. apply filter_all. intros x Hx ->. done.
Qed.

Lemma first_occurrences_sublist l : first_occurrences l `sublist_of` l.
Proof.
  induction l as [|y l IH]; [done|]. cbn [first_occurrences].
  constructor. etrans; [apply sublist_filter|done].
Qed.

Lemma added_before_abort_cut evs more :
  added_before_abort (evs ++ Abort :: more) = added_before_abort evs.
Proof.
  induction evs as [|[els|] evs IH]; cbn [added_before_abort app]; [done| |done].
  by rewrite IH.
Qed.

Lemma added_before_abort_live evs :
  Abort ∉ evs → added_before_abort evs = added evs.
Proof.
  unfold added. induction evs as [|[els|] evs IH]; [done| |].
  - intros Hev%not_elem_of_cons. cbn [added_before_abort].
    rewrite bind_cons. f_equal. apply IH. tauto.
  - intros Hev. destruct Hev. left.
Qed.

Lemma invocations_NoDup w el :
  NoDup (dispatched w) →
  invocations w el = if decide (el ∈ dispatched w) then 1%nat else 0%nat.
Proof.
  unfold invocations. induction 1 as [|y l Hy _ IH]; [done|].
  destruct (decide (y = el)) as [->|Hne].
  - rewrite filter_cons_True by done. cbn [length]. rewrite IH.
    rewrite decide_False by done. rewrite decide_True by left. done.
  - rewrite filter_cons_False by done. rewrite IH.
    destruct (decide (el ∈ l)).
    + rewrite decide_True by (by right). done.
    + rewrite decide_False; [done|]. rewrite elem_of_cons. intuition congruence.
Qed.

Section Observe.
Variable matches : string → nat → bool.
Variable selector : string.

Local Abbreviation dispatch := (dispatch matches selector).
Local Abbreviation step := (step matches selector).
Local Abbreviation matching := (matching matches selector).

Lemma aborted_dispatch w el : aborted (dispatch w el) = aborted w.
Proof.
  unfold SelectorObserver.dispatch. destruct (aborted w) eqn:E; [done|].
  by destruct (_ && _).
Qed.

Lemma aborted_dispatch_all els w :
  aborted (foldl dispatch w els) = aborted w.
Proof.
  revert w. induction els as [|el els IH]; intros w; [done|].
  cbn [foldl]. by rewrite IH, aborted_dispatch.
Qed.

Lemma dispatch_all_aborted els w :
  aborted w = true → foldl dispatch w els = w.
Proof.
  intros Hw. induction els as [|el els IH]; [done|].
  cbn [foldl]. unfold SelectorObserver.dispatch at 2. by rewrite Hw.
Qed.

(** A live watch dispatches the first occurrences of the matching
    elements it has not dispatched before. *)
Lemma dispatched_dispatch_all els w :
  aborted w = false →
  dispatched (foldl dispatch w els) =
  dispatched w
  ++ filter (λ el, el ∉ dispatched w) (first_occurrences (matching els)).
Proof.
  revert w. induction els as [|x els IH]; intros w Hw.
  { cbn. by rewrite app_nil_r. }
  cbn [foldl]. unfold SelectorObserver.matching in *.
  unfold SelectorObserver.dispatch at 2. rewrite Hw.
  destruct (matches selector x) eqn:Hx; cbn [andb].
  - rewrite filter_cons_True by done. cbn [first_occurrences].
    case_bool_decide as Hseen.
    + rewrite IH by done. cbn [dispatched].
      rewrite filter_cons_True by done.
      rewrite <-app_assoc. cbn [app]. do 2 f_equal.
      rewrite list_filter_filter. apply list_filter_iff.
      intros y. rewrite not_elem_of_app, list_elem_of_singleton. tauto.
    + rewrite IH by done.
      rewrite filter_cons_False by tauto. f_equal.
      rewrite list_filter_filter. apply list_filter_iff.
      intros y. intuition congruence.
  - rewrite filter_cons_False by (rewrite Hx; done).
    by apply IH.
Qed.

Lemma dispatched_steps_aborted evs w :
  aborted w = true → dispatched (foldl step w evs) = dispatched w.
Proof.
  revert w. induction evs as [|[els|] evs IH]; intros w Hw; [done|..];
    cbn [foldl SelectorObserver.step].
  - by rewrite dispatch_all_aborted, IH.
  - by rewrite IH.
Qed.

(** Up to the abort, a trace is one sequence of candidates. *)
Lemma dispatched_steps evs w :
  aborted w = false →
  dispatched (foldl step w evs) =
  dispatched (foldl dispatch w (added_before_abort evs)).
Proof.
  revert w. induction evs as [|[els|] evs IH]; intros w Hw; [done|..];
    cbn [foldl SelectorObserver.step added_before_abort].
  - rewrite foldl_app. apply IH. by rewrite aborted_dispatch_all.
  - by rewrite dispatched_steps_aborted.
Qed.

Lemma dispatched_run document evs :
  dispatched (run matches selector document false evs) =
  first_occurrences (matching (document ++ added_before_abort evs)).
Proof.
  unfold run, observe.
  rewrite dispatched_steps by by rewrite aborted_dispatch_all.
  rewrite <-foldl_app, dispatched_dispatch_all by done.
  cbn [dispatched app]. apply filter_all. intros x _. apply not_elem_of_nil.
Qed.

Lemma dispatched_run_aborted document evs :
  dispatched (run matches selector document true evs) = [].
Proof.
  unfold run, observe. rewrite dispatch_all_aborted by done.
  by rewrite dispatched_steps_aborted.
Qed.

Lemma NoDup_dispatched_run document signalAborted evs :
  NoDup (dispatched (run matches selector document signalAborted evs)).
Proof.
  destruct signalAborted.
  - rewrite dispatched_run_aborted. constructor.
  - rewrite dispatched_run. apply NoDup_first_occurrences.
Qed.

End Observe.

End ObserverFacts.

(** C6.  For a watch whose signal is not aborted, the callback is invoked
    exactly once for every element that matches the selector, whether it
    is in the document at the call or added by a later mutation: the log
    of invocations is the sequence of first occurrences of the matching
    elements, those of the document first and in document order, the
    added ones after them in arrival order.  Under one registration the
    callback is never invoked twice for the same element, whatever the
    signal and the events. *)
Theorem observe_dispatches_once (matches : string → nat → bool)
    (selector : string) (document : list nat)
    (evs : list SelectorObserver.Event) :
  SelectorObserver.Abort ∉ evs →
  let watch := SelectorObserver.run matches selector document false evs in
  let log := SelectorObserver.dispatched watch in
  let candidates := document ++ SelectorObserver.added evs in
  (∀ el, matches selector el = true → el ∈ candidates →
     SelectorObserver.invocations watch el = 1%nat)
  ∧ (∀ el, el ∈ log → matches selector el = true ∧ el ∈ candidates)
  ∧ log = SelectorObserver.first_occurrences
            (SelectorObserver.matching matches selector candidates)
  ∧ (∃ later,
       log = SelectorObserver.first_occurrences
               (SelectorObserver.matching matches selector document) ++ later
       ∧ later `sublist_of`
           SelectorObserver.matching matches selector
             (SelectorObserver.added evs))
  ∧ (NoDup document →
       SelectorObserver.matching matches selector document `prefix_of` log)
  ∧ (∀ signalAborted events el,
       (SelectorObserver.invocations
          (SelectorObserver.run matches selector document signalAborted events)
          el ≤ 1)%nat).
Proof.
  intros Hlive watch log candidates.
  assert (Hlog : log = SelectorObserver.first_occurrences
            (SelectorObserver.matching matches selector candidates)).
  { subst log watch candidates.
    by rewrite ObserverFacts.dispatched_run, ObserverFacts.added_before_abort_live. }
  assert (Hsplit : log =
    SelectorObserver.first_occurrences
      (SelectorObserver.matching matches selector document)
    ++ filter (λ x, x ∉ SelectorObserver.matching matches selector document)
         (SelectorObserver.first_occurrences
            (SelectorObserver.matching matches selector
               (SelectorObserver.added evs)))).
  { rewrite Hlog. unfold candidates, SelectorObserver.matching.
    by rewrite filter_app, ObserverFacts.first_occurrences_app. }
  assert (Hin : ∀ el, el ∈ log ↔ matches selector el = true ∧ el ∈ candidates).
  { intros el. rewrite Hlog, ObserverFacts.elem_of_first_occurrences.
    unfold SelectorObserver.matching. by rewrite list_elem_of_filter. }
  split.
  { intros el Hm Hel. subst watch.
    rewrite ObserverFacts.invocations_NoDup
      by apply ObserverFacts.NoDup_dispatched_run.
    rewrite decide_True; [done|]. by apply Hin. }
  split; [intros el; apply Hin|]. split; [done|]. split.
  { eexists. split; [exact Hsplit|].
    etrans; [apply sublist_filter|apply ObserverFacts.first_occurrences_sublist]. }
  split.
  { intros Hnd. rewrite Hsplit.
    rewrite ObserverFacts.first_occurrences_NoDup by by apply NoDup_filter.
    by apply prefix_app_r. }
  intros signalAborted events el.
  rewrite ObserverFacts.invocations_NoDup
    by apply ObserverFacts.NoDup_dispatched_run.
  case_decide; lia.
Qed.

Lemma observe_dispatches_once_witness :
  let matches := λ (_ : string) (el : nat), Nat.even el in
  let evs := [SelectorObserver.Added [4; 5; 2]%nat; SelectorObserver.Added [6]%nat] in
  SelectorObserver.invocations
    (SelectorObserver.run matches ".file" [2; 3]%nat false evs) 6%nat = 1%nat
  ∧ SelectorObserver.dispatched
      (SelectorObserver.run matches ".file" [2; 3]%nat false evs)
    = [2; 4; 6]%nat.
Proof.
  intros matches evs.
  assert (Hlive : SelectorObserver.Abort ∉ evs).
  { subst evs. rewrite !not_elem_of_cons.
    repeat split; try discriminate. apply not_elem_of_nil. }
  split.
  - refine (proj1 (observe_dispatches_once matches ".file" [2; 3]%nat evs Hlive)
              6%nat eq_refl _).
    apply (bool_decide_unpack _). vm_compute. exact I.
  - vm_compute. reflexivity.
Defined.

(** ** The two consumers of the index *)

Module FeatureFacts.
Import Dom.

Lemma split_from_snoc sep cur s :
  ∃ segments seg, Js.split_from sep cur s = segments ++ [seg].
Proof.
  revert cur. induction s as [|c s IH]; intros cur; cbn [Js.split_from].
  - by exists [], cur.
  - destruct (Ascii.eqb c sep).
    + destruct (IH EmptyString) as (segments & seg & ->).
      by exists (cur :: segments), seg.
    + apply IH.
Qed.

(** [split('/').slice(-1)] is the one-element array of the last segment,
    and its string is that segment. *)
Lemma slice_last_split sep s :
  Js.slice_last (Js.split sep s) = [Js.last_segment sep s].
Proof.
  unfold Js.last_segment, Js.split, Js.slice_last.
  destruct (split_from_snoc sep EmptyString s) as (segments & seg & ->).
  rewrite last_snoc, length_app. cbn [length default].
  replace (length segments + 1 - 1)%nat with (length segments) by lia.
  by rewrite drop_app_length.
Qed.

Lemma array_to_string_singleton s : Js.array_to_string [s] = s.
Proof. done. Qed.

(** Insertion next to a child of the root. *)
Lemma insert_near_top offset i new (doc : list Node) :
  (i < length doc)%nat →
  insert_near offset [i] new doc = take (i + offset) doc ++ new :: drop (i + offset) doc.
Proof. intros Hi. cbn. by rewrite bool_decide_eq_true_2. Qed.

End FeatureFacts.

(** C9. When the fetched index has no entry for the path of the page,
    that is, when [prsByFile[path]] is [undefined], [addToSingleFile] and
    [addToEditingFile] return and leave the document as it is: nothing is
    inserted. *)
Theorem missing_path_leaves_document
    (buildRepoURL : string → Z → string → string)
    (GitPullRequestIcon : string → Dom.Node) (isChrome : bool)
    (Number : string → option Z)
    (withFragment : string → string → string)
    (path : string) (prsByFile : gmap string (list Z))
    (prParam : option string) (target : list nat) (doc : list Dom.Node) :
  JsObject.get prsByFile path = JsObject.Undefined →
  Feature.addToSingleFile buildRepoURL GitPullRequestIcon
    path (Async.Fulfilled prsByFile) target doc
  = (Async.Fulfilled (), doc)
  ∧
  Feature.addToEditingFile buildRepoURL GitPullRequestIcon isChrome Number
    withFragment path (Async.Fulfilled prsByFile) prParam target doc
  = (Async.Fulfilled (), doc).
Proof.
  intros Hmissing. unfold Feature.addToSingleFile, Feature.addToEditingFile.
  by rewrite Hmissing.
Qed.

Lemma missing_path_leaves_document_witness :
  let doc := [Dom.El "div" "file" [] []] in
  let prsByFile : gmap string (list Z) :=
    {[ "a.ts" := [10; 3]; "b.ts" := [10] ]} in
  (Feature.addToSingleFile (λ _ _ _, "") (λ _, Dom.Text "") "c.ts"
     (Async.Fulfilled prsByFile) [0%nat] doc).2 = doc
  ∧
  (Feature.addToEditingFile (λ _ _ _, "") (λ _, Dom.Text "") true (λ _, None) (λ url _, url)
     "c.ts" (Async.Fulfilled prsByFile) (Some "3") [0%nat] doc).2 = doc.
Proof.
  intros doc prsByFile.
  assert (H : JsObject.get prsByFile "c.ts" = JsObject.Undefined)
    by (vm_compute; reflexivity).
  destruct (missing_path_leaves_document (λ _ _ _, "") (λ _, Dom.Text "") true
              (λ _, None) (λ url _, url) "c.ts" prsByFile (Some "3") [0%nat]
              doc H) as [H1 H2].
  split.
  - exact (f_equal snd H1).
  - exact (f_equal snd H2).
Defined.

(** When the index has an entry for the path, the button is placed before
    the element the callback was handed. *)
Example present_path_inserts_button :
  let doc := [Dom.El "div" "actions" [] []] in
  (Feature.addToSingleFile (λ _ _ _, "") (λ _, Dom.Text "") "a.ts"
     (Async.Fulfilled {[ "a.ts" := [10] ]}) [0%nat] doc).2
  = [Feature.getSingleButton (λ _ _ _, "") (λ _, Dom.Text "") 10;
     Dom.El "div" "actions" [] []].
Proof. vm_compute. reflexivity. Qed.

(** C10. In [addToEditingFile], when the query string has a [pr] parameter,
    the number read from its last segment, which is the pull request being
    edited, is filtered out of the list of the file before the warning is
    built: the warning shows the remaining numbers, in their order; when
    none remains, nothing is inserted and the document is as it was. *)
Theorem editing_pr_is_filtered_out
    (buildRepoURL : string → Z → string → string)
    (GitPullRequestIcon : string → Dom.Node) (isChrome : bool)
    (Number : string → option Z)
    (withFragment : string → string → string)
    (path : string) (prsByFile : gmap string (list Z)) (prs : list Z)
    (value : string) (file : list nat) (doc : list Dom.Node) :
  prsByFile !! path = Some prs →
  let editing := Number (Js.last_segment "/" value) in
  let others := filter (λ pr, Some pr ≠ editing) prs in
  Feature.addToEditingFile buildRepoURL GitPullRequestIcon isChrome Number
    withFragment path (Async.Fulfilled prsByFile) (Some value) file doc
  = (Async.Fulfilled (),
     match others with
     | [] => doc
     | _ :: _ =>
         Dom.after file
           (Feature.warning buildRepoURL GitPullRequestIcon isChrome withFragment
              path others)
           doc
     end)
  ∧ (∀ n, editing = Some n → n ∉ others)
  ∧ (∀ pr, pr ∈ others ↔ pr ∈ prs ∧ Some pr ≠ editing)
  ∧ others `sublist_of` prs.
Proof.
  intros Hprs editing others. split.
  - unfold Feature.addToEditingFile, Feature.editingPRNumber.
    rewrite (IndexFacts.get_own _ _ _ Hprs). cbn [fmap option_fmap option_map].
    rewrite FeatureFacts.slice_last_split, FeatureFacts.array_to_string_singleton.
    fold editing. fold others. by destruct others.
  - split; [|split].
    + intros n Hn Hin. apply list_elem_of_filter in Hin as [Hne _].
      by rewrite Hn in Hne.
    + intros pr. unfold others. rewrite list_elem_of_filter. tauto.
    + apply sublist_filter.
Qed.

Lemma editing_pr_is_filtered_out_witness :
  let Number := λ s : string, if String.eqb s "3" then Some 3 else None in
  let doc := [Dom.El "div" "file" [] []] in
  (Feature.addToEditingFile (λ _ _ _, "") (λ _, Dom.Text "") true Number (λ url _, url)
     "a.ts" (Async.Fulfilled {[ "a.ts" := [3] ]}) (Some "owner/3") [0%nat] doc).2
  = doc.
Proof.
  intros Number doc.
  assert (H : ({[ "a.ts" := [3] ]} : gmap string (list Z)) !! "a.ts" = Some [3])
    by (vm_compute; reflexivity).
  exact (f_equal snd
    (proj1 (editing_pr_is_filtered_out (λ _ _ _, "") (λ _, Dom.Text "") true
              Number (λ url _, url) "a.ts" _ [3] "owner/3" [0%nat] doc H))).
Defined.

(** ** Where the consumers put their markup *)

Module DomFacts.
Import Dom.

Lemma lookup_insert_at_new i new (siblings : list Node) :
  (i ≤ length siblings)%nat → insert_at i new siblings !! i = Some new.
Proof.
  intros Hi. unfold insert_at.
  rewrite lookup_app_r by (rewrite length_take; lia).
  rewrite length_take. by replace (i - i `min` length siblings)%nat with 0%nat by lia.
Qed.

Lemma lookup_insert_at_before i j new (siblings : list Node) :
  (j < i)%nat → (i ≤ length siblings)%nat →
  insert_at i new siblings !! j = siblings !! j.
Proof.
  intros Hj Hi. unfold insert_at.
  rewrite lookup_app_l by (rewrite length_take; lia). by apply lookup_take_lt.
Qed.

Lemma lookup_insert_at_after i j new (siblings : list Node) :
  (i ≤ j)%nat → (i ≤ length siblings)%nat →
  insert_at i new siblings !! S j = siblings !! j.
Proof.
  intros Hj Hi. unfold insert_at.
  rewrite lookup_app_r by (rewrite length_take; lia).
  rewrite length_take. replace (S j - i `min` length siblings)%nat with (S (j - i)) by lia.
  change ((new :: drop i siblings) !! S (j - i)) with (drop i siblings !! (j - i)%nat).
  rewrite lookup_drop. f_equal. lia.
Qed.

Lemma node_at_deeper i j h (doc : list Node) :
  node_at (i :: j :: h) doc =
  match doc !! i with
  | Some (El _ _ _ children) => node_at (j :: h) children
  | _ => None
  end.
Proof. done. Qed.

Lemma insert_near_deeper offset i j h new (doc : list Node) :
  insert_near offset (i :: j :: h) new doc =
  match doc !! i with
  | Some (El tag className attrs children) =>
      <[i := El tag className attrs (insert_near offset (j :: h) new children)]> doc
  | _ => doc
  end.
Proof. done. Qed.

Lemma next_sibling_deeper i j h :
  next_sibling (i :: j :: h) = i :: next_sibling (j :: h).
Proof. done. Qed.

Lemma next_sibling_cons j h : ∃ j' h', next_sibling (j :: h) = j' :: h'.
Proof. destruct h; by eexists _, _. Qed.

(** [before]: the new node takes the place of the element, which follows
    it. *)
Lemma node_at_before h new el (doc : list Node) :
  node_at h doc = Some el →
  node_at h (before h new doc) = Some new
  ∧ node_at (next_sibling h) (before h new doc) = Some el.
Proof.
  unfold before. revert doc.
  induction h as [|i h IH]; intros doc; [done|].
  destruct h as [|j h].
  - cbn [node_at insert_near next_sibling].
    intros Hel. pose proof (lookup_lt_Some _ _ _ Hel).
    rewrite bool_decide_eq_true_2 by done. rewrite Nat.add_0_r. split.
    + apply lookup_insert_at_new. lia.
    + rewrite lookup_insert_at_after by lia. done.
  - rewrite next_sibling_deeper, insert_near_deeper, node_at_deeper.
    destruct (next_sibling_cons j h) as (j' & h' & Hnext).
    destruct (doc !! i) as [[| |tag cls attrs kids]|] eqn:Hi; try done.
    intros Hel. pose proof (lookup_lt_Some _ _ _ Hi).
    destruct (IH kids Hel) as [IH1 IH2].
    rewrite Hnext in *. rewrite !node_at_deeper.
    by rewrite !list_lookup_insert_eq by done.
Qed.

(** [after]: the element stays where it is and the new node follows it. *)
Lemma node_at_after h new el (doc : list Node) :
  node_at h doc = Some el →
  node_at h (after h new doc) = Some el
  ∧ node_at (next_sibling h) (after h new doc) = Some new.
Proof.
  unfold after. revert doc.
  induction h as [|i h IH]; intros doc; [done|].
  destruct h as [|j h].
  - cbn [node_at insert_near next_sibling].
    intros Hel. pose proof (lookup_lt_Some _ _ _ Hel).
    rewrite bool_decide_eq_true_2 by done. rewrite Nat.add_1_r. split.
    + rewrite lookup_insert_at_before by lia. done.
    + apply lookup_insert_at_new. lia.
  - rewrite next_sibling_deeper, insert_near_deeper, node_at_deeper.
    destruct (next_sibling_cons j h) as (j' & h' & Hnext).
    destruct (doc !! i) as [[| |tag cls attrs kids]|] eqn:Hi; try done.
    intros Hel. pose proof (lookup_lt_Some _ _ _ Hi).
    destruct (IH kids Hel) as [IH1 IH2].
    rewrite Hnext in *. rewrite !node_at_deeper.
    by rewrite !list_lookup_insert_eq by done.
Qed.

End DomFacts.

(** X9. When the index has an entry for the path and the element handed
    to [addToSingleFile] is in the document, the call resolves, the
    widget (a single button for one pull request, the dropdown otherwise)
    takes the place of the element and the element follows it
    immediately. *)
Theorem button_goes_before_target
    (buildRepoURL : string → Z → string → string)
    (GitPullRequestIcon : string → Dom.Node)
    (path : string) (prsByFile : gmap string (list Z)) (prs : list Z)
    (target : list nat) (el : Dom.Node) (doc : list Dom.Node) :
  prsByFile !! path = Some prs →
  Dom.node_at target doc = Some el →
  let out := Feature.addToSingleFile buildRepoURL GitPullRequestIcon
               path (Async.Fulfilled prsByFile) target doc in
  out.1 = Async.Fulfilled ()
  ∧ Dom.node_at target out.2
    = Some match prs with
           | [prNumber] =>
               Feature.getSingleButton buildRepoURL GitPullRequestIcon prNumber
           | _ => Feature.getDropdown buildRepoURL GitPullRequestIcon prs
           end
  ∧ Dom.node_at (Dom.next_sibling target) out.2 = Some el.
Proof.
  intros Hprs Hel out. subst out. unfold Feature.addToSingleFile.
  rewrite (IndexFacts.get_own _ _ _ Hprs). cbn [fst snd]. split; [done|].
  by apply DomFacts.node_at_before.
Qed.

Lemma button_goes_before_target_witness :
  let doc := [Dom.El "div" "bar" [] [Dom.Text "x"; Dom.El "details" "" [] []]] in
  Dom.node_at [0; 2]%nat
    (Feature.addToSingleFile (λ _ _ _, "") (λ _, Dom.Text "") "a.ts"
       (Async.Fulfilled {[ "a.ts" := [10; 3] ]}) [0; 1]%nat doc).2
  = Some (Dom.El "details" "" [] []).
Proof.
  intros doc.
  assert (H : ({[ "a.ts" := [10; 3] ]} : gmap string (list Z)) !! "a.ts"
              = Some [10; 3]) by (vm_compute; reflexivity).
  exact (proj2 (proj2 (button_goes_before_target (λ _ _ _, "") (λ _, Dom.Text "")
           "a.ts" _ [10; 3] [0; 1]%nat (Dom.El "details" "" [] []) doc H eq_refl))).
Defined.

(** X10. On an index built by the loop, [addToSingleFile] never shows an
    empty dropdown: for a path of the index it places the single button of
    the only pull request, or a dropdown listing between 2 and 10 of
    them. *)
Theorem widget_on_built_index
    (buildRepoURL : string → Z → string → string)
    (GitPullRequestIcon : string → Dom.Node)
    (records : list Api.PullRequest) (idx : gmap string (list Z))
    (path : string) (l : list Z)
    (target : list nat) (doc : list Dom.Node) :
  IndexBuilder.build records = Async.Fulfilled idx →
  idx !! path = Some l →
  ∃ first others,
    l = first :: others ∧ (length others ≤ 9)%nat ∧
    (Feature.addToSingleFile buildRepoURL GitPullRequestIcon path
       (PrsByFile.producer (Async.Fulfilled records)) target doc).2
    = Dom.before target
        match others with
        | [] => Feature.getSingleButton buildRepoURL GitPullRequestIcon first
        | _ :: _ => Feature.getDropdown buildRepoURL GitPullRequestIcon l
        end doc.
Proof.
  intros Hb Hl. cbn [PrsByFile.producer]. rewrite Hb.
  unfold Feature.addToSingleFile. rewrite (IndexFacts.get_own _ _ _ Hl). cbn [snd].
  destruct (IndexFacts.lookup_build_Some _ _ _ _ Hb Hl) as (_ & c & cs & _ & ->).
  exists c, (take 9 cs). split; [done|]. split; [rewrite length_take; lia|].
  change (take IndexBuilder.cap (c :: cs)) with (c :: take 9 cs).
  by destruct (take 9 cs).
Qed.

Lemma widget_on_built_index_witness :
  let records := [Api.record 10 ["a.ts"; "b.ts"]; Api.record 3 ["a.ts"]] in
  ∃ first others, [10; 3] = first :: others ∧ (length others ≤ 9)%nat ∧
    (Feature.addToSingleFile (λ _ _ _, "") (λ _, Dom.Text "") "a.ts"
       (PrsByFile.producer (Async.Fulfilled records)) [0%nat] []).2
    = Dom.before [0%nat]
        match others with
        | [] => Feature.getSingleButton (λ _ _ _, "") (λ _, Dom.Text "") first
        | _ :: _ => Feature.getDropdown (λ _ _ _, "") (λ _, Dom.Text "") [10; 3]
        end [].
Proof.
  intros records.
  assert (Hb : IndexBuilder.build records
               = Async.Fulfilled {[ "a.ts" := [10; 3]; "b.ts" := [10] ]})
    by (vm_compute; reflexivity).
  assert (H : ({[ "a.ts" := [10; 3]; "b.ts" := [10] ]} : gmap string (list Z))
              !! "a.ts" = Some [10; 3]) by (vm_compute; reflexivity).
  exact (widget_on_built_index (λ _ _ _, "") (λ _, Dom.Text "") records _ "a.ts"
           [10; 3] [0%nat] [] Hb H).
Defined.

(** X11. When [addToEditingFile] shows a warning, that is, without a [pr]
    parameter or when the filtered list is not empty, the file element
    stays where it is and the warning follows it immediately. *)
Theorem warning_goes_after_file
    (buildRepoURL : string → Z → string → string)
    (GitPullRequestIcon : string → Dom.Node) (isChrome : bool)
    (Number : string → option Z)
    (withFragment : string → string → string)
    (path : string) (prsByFile : gmap string (list Z)) (prs : list Z)
    (prParam : option string) (file : list nat) (el : Dom.Node)
    (doc : list Dom.Node) :
  prsByFile !! path = Some prs →
  Dom.node_at file doc = Some el →
  let shown :=
    match prParam with
    | Some value =>
        filter (λ pr, Some pr ≠ Number (Js.last_segment "/" value)) prs
    | None => prs
    end in
  prParam = None ∨ shown ≠ [] →
  let out := Feature.addToEditingFile buildRepoURL GitPullRequestIcon isChrome
               Number withFragment path (Async.Fulfilled prsByFile) prParam file doc in
  out.1 = Async.Fulfilled ()
  ∧ Dom.node_at file out.2 = Some el
  ∧ Dom.node_at (Dom.next_sibling file) out.2
    = Some (Feature.warning buildRepoURL GitPullRequestIcon isChrome withFragment
              path shown).
Proof.
  intros Hprs Hel shown Hshown out. subst out.
  unfold Feature.addToEditingFile, Feature.editingPRNumber.
  rewrite (IndexFacts.get_own _ _ _ Hprs).
  destruct prParam as [value|]; cbn [fmap option_fmap option_map].
  - rewrite FeatureFacts.slice_last_split, FeatureFacts.array_to_string_singleton.
    fold shown. destruct Hshown as [|Hne]; [done|].
    destruct shown as [|n rest] eqn:E; [done|]. cbn [fst snd].
    split; [done|]. by apply DomFacts.node_at_after.
  - cbn [fst snd]. split; [done|]. by apply DomFacts.node_at_after.
Qed.

Lemma warning_goes_after_file_witness :
  let Number := λ s : string, if String.eqb s "3" then Some 3 else None in
  let doc := [Dom.El "div" "file" [] []] in
  Dom.node_at [1%nat]
    (Feature.addToEditingFile (λ _ _ _, "") (λ _, Dom.Text "") true Number (λ url _, url)
       "a.ts" (Async.Fulfilled {[ "a.ts" := [10; 3] ]}) (Some "3") [0%nat] doc).2
  = Some (Feature.warning (λ _ _ _, "") (λ _, Dom.Text "") true (λ url _, url) "a.ts" [10]).
Proof.
  intros Number doc.
  assert (H : ({[ "a.ts" := [10; 3] ]} : gmap string (list Z)) !! "a.ts"
              = Some [10; 3]) by (vm_compute; reflexivity).
  refine (proj2 (proj2 (warning_goes_after_file (λ _ _ _, "") (λ _, Dom.Text "")
            true Number (λ url _, url) "a.ts" _ [10; 3] (Some "3") [0%nat]
            (Dom.El "div" "file" [] []) doc H eq_refl _))).
  right. discriminate.
Defined.

Module FeatureMore.

Lemma filter_keeps_all {A} (P : A → Prop) `{∀ x, Decision (P x)} (l : list A) :
  (∀ x, x ∈ l → P x) → filter P l = l.
Proof.
  induction l as [|x l IH]; intros HP; [done|].
  rewrite filter_cons_True by (apply HP; left).
  f_equal. apply IH. intros y Hy. apply HP. by right.
Qed.

End FeatureMore.

(** X12. A [pr] parameter whose number is not among the pull requests of
    the file changes nothing: [addToEditingFile] does what it does without
    the parameter, provided the list of the file is not empty. *)
Theorem unrelated_pr_parameter_changes_nothing
    (buildRepoURL : string → Z → string → string)
    (GitPullRequestIcon : string → Dom.Node) (isChrome : bool)
    (Number : string → option Z)
    (withFragment : string → string → string)
    (path : string) (prsByFile : gmap string (list Z)) (prs : list Z)
    (value : string) (file : list nat) (doc : list Dom.Node) :
  prsByFile !! path = Some prs →
  prs ≠ [] →
  (∀ n, Number (Js.last_segment "/" value) = Some n → n ∉ prs) →
  Feature.addToEditingFile buildRepoURL GitPullRequestIcon isChrome Number
    withFragment path (Async.Fulfilled prsByFile) (Some value) file doc
  = Feature.addToEditingFile buildRepoURL GitPullRequestIcon isChrome Number
      withFragment path (Async.Fulfilled prsByFile) None file doc.
Proof.
  intros Hprs Hne Hother.
  unfold Feature.addToEditingFile, Feature.editingPRNumber.
  rewrite (IndexFacts.get_own _ _ _ Hprs).
  cbn [fmap option_fmap option_map].
  rewrite FeatureFacts.slice_last_split, FeatureFacts.array_to_string_singleton.
  rewrite FeatureMore.filter_keeps_all.
  - by destruct prs.
  - intros pr Hpr Heq. by apply (Hother pr).
Qed.

Lemma unrelated_pr_parameter_changes_nothing_witness :
  let Number := λ s : string, if String.eqb s "7" then Some 7 else None in
  Feature.addToEditingFile (λ _ _ _, "") (λ _, Dom.Text "") true Number (λ url _, url)
    "a.ts" (Async.Fulfilled {[ "a.ts" := [10; 3] ]}) (Some "pull/7") [0%nat] []
  = Feature.addToEditingFile (λ _ _ _, "") (λ _, Dom.Text "") true Number (λ url _, url)
      "a.ts" (Async.Fulfilled {[ "a.ts" := [10; 3] ]}) None [0%nat] [].
Proof.
  intros Number.
  assert (H : ({[ "a.ts" := [10; 3] ]} : gmap string (list Z)) !! "a.ts"
              = Some [10; 3]) by (vm_compute; reflexivity).
  apply (unrelated_pr_parameter_changes_nothing (λ _ _ _, "") (λ _, Dom.Text "")
           true Number (λ url _, url) "a.ts" _ [10; 3] "pull/7" [0%nat] [] H).
  - discriminate.
  - intros n Hn. vm_compute in Hn. injection Hn as <-.
    rewrite !elem_of_cons, elem_of_nil. intros [?|[?|[]]]; discriminate.
Defined.

(** X13. On an index built by the loop, [addToEditingFile] never
    announces zero pull requests: it leaves the document as it is, or it
    inserts after the file a warning about at least one pull request,
    taken in order from the list stored for the path.  It resolves unless
    the path of the page names a member of [Object.prototype], in which
    case it rejects and inserts nothing. *)
Theorem warning_on_built_index_names_a_pr
    (buildRepoURL : string → Z → string → string)
    (GitPullRequestIcon : string → Dom.Node) (isChrome : bool)
    (Number : string → option Z)
    (withFragment : string → string → string)
    (records : list Api.PullRequest) (idx : gmap string (list Z))
    (path : string)
    (prParam : option string) (file : list nat) (doc : list Dom.Node) :
  IndexBuilder.build records = Async.Fulfilled idx →
  let out := Feature.addToEditingFile buildRepoURL GitPullRequestIcon isChrome
               Number withFragment path (Async.Fulfilled idx)
               prParam file doc in
  (out.2 = doc ∨
   ∃ shown,
     shown ≠ [] ∧
     shown `sublist_of` IndexBuilder.at_key idx path ∧
     out.2 = Dom.after file
               (Feature.warning buildRepoURL GitPullRequestIcon isChrome
                  withFragment path shown)
               doc)
  ∧ (IndexBuilder.ordinary path → out.1 = Async.Fulfilled ())
  ∧ (¬ IndexBuilder.ordinary path →
       out = (Async.Rejected JsObject.TypeError, doc)).
Proof.
  intros Hb out. subst out.
  unfold Feature.addToEditingFile, IndexBuilder.at_key, JsObject.get.
  destruct (idx !! path) as [l|] eqn:Hl.
  - destruct (IndexFacts.lookup_build_Some _ _ _ _ Hb Hl) as (Hk & c & cs & _ & Hlc).
    assert (l ≠ []) as Hne by (by rewrite Hlc).
    destruct (Feature.editingPRNumber prParam) as [editing|].
    + cbn zeta.
      destruct (filter _ l) as [|n rest] eqn:E; cbn [fst snd];
        (split; [|split; [done|done]]); [by left|].
      right. exists (n :: rest). split; [done|]. split; [|done].
      rewrite <-E. apply sublist_filter.
    + cbn [fst snd default]. split; [|split; [done|done]].
      right. by exists l.
  - unfold IndexBuilder.ordinary.
    destruct (JsObject.inherited path); cbn [fst snd];
      (split; [by left|]); split; done.
Qed.

Lemma warning_on_built_index_names_a_pr_witness :
  let records := [Api.record 10 ["a.ts"; "b.ts"]; Api.record 3 ["a.ts"]] in
  let idx : gmap string (list Z) := {[ "a.ts" := [10; 3]; "b.ts" := [10] ]} in
  Feature.addToEditingFile (λ _ _ _, "") (λ _, Dom.Text "") true (λ _, None)
    (λ url _, url) "toString" (Async.Fulfilled idx) None [0%nat] []
  = (Async.Rejected JsObject.TypeError, []).
Proof.
  intros records idx.
  assert (Hb : IndexBuilder.build records = Async.Fulfilled idx)
    by (vm_compute; reflexivity).
  refine (proj2 (proj2 (warning_on_built_index_names_a_pr (λ _ _ _, "")
            (λ _, Dom.Text "") true (λ _, None) (λ url _, url) records idx
            "toString" None [0%nat] [] Hb)) _).
  vm_compute. discriminate.
Defined.

(** ** More on the index: keys, order and bounds *)

(** X1. When the loop returns, the keys of its index are exactly the file
    paths of the records under which [Object.prototype] holds nothing:
    every such path becomes a key, and there is no other key. *)
Theorem keys_are_the_paths (prs : list Api.PullRequest)
    (idx : gmap string (list Z)) :
  IndexBuilder.build prs = Async.Fulfilled idx →
  dom idx =@{gset string}
    list_to_set (filter IndexBuilder.ordinary (prs ≫= Api.paths_of)).
Proof. apply IndexFacts.dom_build. Qed.

Lemma keys_are_the_paths_witness :
  let prs := [Api.record 10 ["a.ts"; "__proto__"]; Api.record 3 ["a.ts"]] in
  dom ({[ "a.ts" := [10; 3] ]} : gmap string (list Z)) =@{gset string}
    list_to_set (filter IndexBuilder.ordinary (prs ≫= Api.paths_of)).
Proof.
  intros prs. apply (keys_are_the_paths prs). vm_compute. reflexivity.
Defined.

(** X2. No list of the built index is empty, so the first number read by
    the consumers is always there. *)
Theorem stored_lists_are_not_empty (prs : list Api.PullRequest)
    (idx : gmap string (list Z)) (k : string) (l : list Z) :
  IndexBuilder.build prs = Async.Fulfilled idx →
  idx !! k = Some l → l ≠ [] ∧ is_Some (head l).
Proof.
  intros Hb Hl.
  destruct (IndexFacts.lookup_build_Some _ _ _ _ Hb Hl) as (_ & c & cs & _ & ->).
  split; [done|]. by exists c.
Qed.

Lemma stored_lists_are_not_empty_witness :
  let idx : gmap string (list Z) := {[ "a.ts" := [10; 3]; "b.ts" := [10] ]} in
  idx !! "b.ts" = Some [10] ∧ [10] ≠ @nil Z.
Proof.
  intros idx.
  assert (Hb : IndexBuilder.build
                 [Api.record 10 ["a.ts"; "b.ts"]; Api.record 3 ["a.ts"]]
               = Async.Fulfilled idx) by (vm_compute; reflexivity).
  assert (H : idx !! "b.ts" = Some [10]) by (vm_compute; reflexivity).
  split; [exact H|].
  exact (proj1 (stored_lists_are_not_empty _ idx "b.ts" [10] Hb H)).
Defined.

(** X3. When the loop returns, the first number stored at an ordinary key
    is the number of the first record, in processing order, that has the
    key among its paths: with the records ordered by last update, newest
    first, it is the most recently updated pull request touching the
    file. *)
Theorem first_stored_is_first_touching (prs : list Api.PullRequest)
    (idx : gmap string (list Z)) (k : string) :
  IndexBuilder.build prs = Async.Fulfilled idx →
  IndexBuilder.ordinary k →
  head (IndexBuilder.at_key idx k)
  = Api.number <$> head (IndexBuilder.touching k prs).
Proof.
  intros Hb Hk.
  rewrite (IndexFacts.at_key_build _ _ k Hb), decide_True by done.
  rewrite <-IndexFacts.contributions_touching.
  destruct (IndexBuilder.touching k prs) as [|pr rest] eqn:E; [done|].
  assert (k ∈ Api.paths_of pr) as Hin.
  { assert (pr ∈ IndexBuilder.touching k prs) as Hpr by (rewrite E; left).
    unfold IndexBuilder.touching in Hpr.
    by apply list_elem_of_filter in Hpr as [? _]. }
  destruct (IndexFacts.contributions_of_cons k pr Hin) as [more Hmore].
  by rewrite IndexFacts.contributions_cons, Hmore.
Qed.

Lemma first_stored_is_first_touching_witness :
  let prs := [Api.record 10 ["b.ts"]; Api.record 3 ["a.ts"]; Api.record 7 ["a.ts"]] in
  let idx : gmap string (list Z) := {[ "a.ts" := [3; 7]; "b.ts" := [10] ]} in
  head (IndexBuilder.at_key idx "a.ts")
  = Api.number <$> head (IndexBuilder.touching "a.ts" prs).
Proof.
  intros prs idx. apply (first_stored_is_first_touching prs idx "a.ts").
  - vm_compute. reflexivity.
  - vm_compute. reflexivity.
Defined.

(** X4. Records processed later never remove a key and never change or
    reorder what is stored: the list of a key after more records extends
    the list before them. *)
Theorem later_records_only_extend (prs more : list Api.PullRequest)
    (idx idx' : gmap string (list Z)) (k : string) :
  IndexBuilder.build prs = Async.Fulfilled idx →
  IndexBuilder.build (prs ++ more) = Async.Fulfilled idx' →
  IndexBuilder.at_key idx k `prefix_of` IndexBuilder.at_key idx' k
  ∧ dom idx ⊆ dom idx'.
Proof.
  intros Hb Hb'. split.
  - rewrite (IndexFacts.at_key_build _ _ k Hb), (IndexFacts.at_key_build _ _ k Hb').
    destruct (decide (IndexBuilder.ordinary k)); [|done].
    rewrite IndexFacts.contributions_app, take_app. by apply prefix_app_r.
  - intros j. rewrite !elem_of_dom.
    rewrite (IndexFacts.lookup_build _ _ j Hb), (IndexFacts.lookup_build _ _ j Hb').
    destruct (decide (IndexBuilder.ordinary j)); [|done].
    rewrite IndexFacts.contributions_app.
    destruct (IndexBuilder.contributions j prs); [by intros [? ?]|].
    intros _. by eexists.
Qed.

Lemma later_records_only_extend_witness :
  let idx : gmap string (list Z) := {[ "a.ts" := [10] ]} in
  let idx' : gmap string (list Z) := {[ "a.ts" := [10; 3]; "b.ts" := [3] ]} in
  IndexBuilder.at_key idx "a.ts" `prefix_of` IndexBuilder.at_key idx' "a.ts".
Proof.
  intros idx idx'.
  refine (proj1 (later_records_only_extend [Api.record 10 ["a.ts"]]
                   [Api.record 3 ["a.ts"; "b.ts"]] idx idx' "a.ts" _ _)).
  - vm_compute. reflexivity.
  - vm_compute. reflexivity.
Defined.

(** X5. When the loop returns for all the records, it also returns for
    the records that have a given key among their paths, and the list of
    that key is the same: the other records do not bear on it. *)
Theorem other_records_do_not_matter (prs : list Api.PullRequest)
    (idx : gmap string (list Z)) (k : string) :
  IndexBuilder.build prs = Async.Fulfilled idx →
  ∃ idx', IndexBuilder.build (IndexBuilder.touching k prs) = Async.Fulfilled idx'
          ∧ idx' !! k = idx !! k.
Proof.
  intros Hb.
  destruct (IndexFacts.build_fulfils (IndexBuilder.touching k prs)) as [idx' Hb'].
  { by apply IndexFacts.contributions_clean_touching, (IndexFacts.build_clean _ idx). }
  exists idx'. split; [done|].
  rewrite (IndexFacts.lookup_build _ _ k Hb), (IndexFacts.lookup_build _ _ k Hb').
  by rewrite IndexFacts.contributions_touching.
Qed.

Lemma other_records_do_not_matter_witness :
  let prs := [Api.record 10 ["b.ts"]; Api.record 3 ["a.ts"]] in
  ∃ idx', IndexBuilder.build (IndexBuilder.touching "a.ts" prs)
          = Async.Fulfilled idx'
          ∧ idx' !! "a.ts"
            = ({[ "a.ts" := [3]; "b.ts" := [10] ]} : gmap string (list Z)) !! "a.ts".
Proof.
  intros prs. apply (other_records_do_not_matter prs).
  vm_compute. reflexivity.
Defined.

(** X6. When the loop returns and no record names a path twice, the list
    of an ordinary key is the numbers of the first 10 records touching it,
    in processing order, and its length is the number of those records,
    capped at 10. *)
Theorem list_of_distinct_paths (prs : list Api.PullRequest)
    (idx : gmap string (list Z)) (k : string) :
  IndexBuilder.build prs = Async.Fulfilled idx →
  IndexBuilder.ordinary k →
  Forall (λ pr, NoDup (Api.paths_of pr)) prs →
  IndexBuilder.at_key idx k
  = Api.number <$> take 10 (IndexBuilder.touching k prs)
  ∧ length (IndexBuilder.at_key idx k)
    = (10 `min` length (IndexBuilder.touching k prs))%nat.
Proof.
  intros Hb Hk Hpaths.
  rewrite (IndexFacts.at_key_build _ _ k Hb), decide_True by done.
  rewrite IndexFacts.contributions_distinct_paths by done.
  split; [by rewrite fmap_take|].
  by rewrite length_take, length_fmap.
Qed.

Lemma list_of_distinct_paths_witness :
  let prs := [Api.record 10 ["a.ts"; "b.ts"]; Api.record 3 ["a.ts"]] in
  let idx : gmap string (list Z) := {[ "a.ts" := [10; 3]; "b.ts" := [10] ]} in
  length (IndexBuilder.at_key idx "a.ts")
  = (10 `min` length (IndexBuilder.touching "a.ts" prs))%nat.
Proof.
  intros prs idx. refine (proj2 (list_of_distinct_paths prs idx "a.ts" _ _ _)).
  - vm_compute. reflexivity.
  - vm_compute. reflexivity.
  - apply (bool_decide_unpack _). vm_compute. exact I.
Defined.

(** X7. When the records have distinct numbers and none names a path
    twice, no stored list holds a number twice. *)
Theorem stored_lists_have_no_duplicates (prs : list Api.PullRequest)
    (idx : gmap string (list Z)) (k : string) :
  IndexBuilder.build prs = Async.Fulfilled idx →
  NoDup (Api.number <$> prs) →
  Forall (λ pr, NoDup (Api.paths_of pr)) prs →
  NoDup (IndexBuilder.at_key idx k).
Proof.
  intros Hb Hnumbers Hpaths.
  rewrite (IndexFacts.at_key_build _ _ k Hb).
  destruct (decide (IndexBuilder.ordinary k)); [|constructor].
  rewrite IndexFacts.contributions_distinct_paths by done.
  apply (sublist_NoDup _ (Api.number <$> prs)); [done|].
  etrans; [apply sublist_take|]. apply fmap_sublist, sublist_filter.
Qed.

Lemma stored_lists_have_no_duplicates_witness :
  let prs := [Api.record 10 ["a.ts"; "b.ts"]; Api.record 3 ["a.ts"]] in
  let idx : gmap string (list Z) := {[ "a.ts" := [10; 3]; "b.ts" := [10] ]} in
  NoDup (IndexBuilder.at_key idx "a.ts").
Proof.
  intros prs idx. apply (stored_lists_have_no_duplicates prs idx "a.ts").
  - vm_compute. reflexivity.
  - apply (bool_decide_unpack _). vm_compute. exact I.
  - apply (bool_decide_unpack _). vm_compute. exact I.
Defined.

(** X8. The index the loop returns has no more keys than the records have
    file nodes; for an answer within the limits of the query, at most 25
    pull requests with at most 100 files each, it has at most 2500
    keys. *)
Theorem index_size_bound (prs : list Api.PullRequest)
    (idx : gmap string (list Z)) :
  IndexBuilder.build prs = Async.Fulfilled idx →
  (size idx ≤ length (prs ≫= Api.paths_of))%nat
  ∧ ((length prs ≤ 25)%nat →
     Forall (λ pr, (length (Api.paths_of pr) ≤ 100)%nat) prs →
     (size idx ≤ 2500)%nat).
Proof.
  intros Hb.
  assert (size idx ≤ length (prs ≫= Api.paths_of))%nat as H.
  { rewrite <-size_dom, (IndexFacts.dom_build _ _ Hb).
    etrans; [apply IndexFacts.size_list_to_set_le|apply length_filter]. }
  split; [done|]. intros Hprs Hfiles.
  pose proof (IndexFacts.length_all_paths prs 100 Hfiles). lia.
Qed.

Lemma index_size_bound_witness :
  let prs := [Api.record 10 ["a.ts"; "b.ts"]; Api.record 3 ["a.ts"]] in
  let idx : gmap string (list Z) := {[ "a.ts" := [10; 3]; "b.ts" := [10] ]} in
  (size idx ≤ 2500)%nat.
Proof.
  intros prs idx.
  assert (Hb : IndexBuilder.build prs = Async.Fulfilled idx)
    by (vm_compute; reflexivity).
  refine (proj2 (index_size_bound prs idx Hb) _ _).
  - vm_compute. lia.
  - apply (bool_decide_unpack _). vm_compute. exact I.
Defined.

(** X16. Processing one record, from any index, changes only the lists of
    the paths the record names, and a list it changes is only extended:
    what was stored stays in place. *)
Theorem record_changes_only_its_paths
    (files files' : gmap string (list Z)) (pr : Api.PullRequest) (k : string) :
  IndexBuilder.visit_pr files pr = Async.Fulfilled files' →
  (k ∉ Api.paths_of pr → files' !! k = files !! k)
  ∧ IndexBuilder.at_key files k `prefix_of` IndexBuilder.at_key files' k.
Proof.
  intros Hstep. destruct (IndexFacts.visit_pr_step _ _ _ Hstep) as [H1 H2].
  split; [apply H1|apply H2].
Qed.

Lemma record_changes_only_its_paths_witness :
  let files : gmap string (list Z) := {[ "b.ts" := [10] ]} in
  let files' : gmap string (list Z) := {[ "a.ts" := [3]; "b.ts" := [10] ]} in
  files' !! "b.ts" = files !! "b.ts".
Proof.
  intros files files'.
  refine (proj1 (record_changes_only_its_paths files files'
                   (Api.record 3 ["a.ts"]) "b.ts" _) _).
  - vm_compute. reflexivity.
  - apply (bool_decide_unpack _). vm_compute. exact I.
Defined.

(** X17. The loop returns an index exactly when no file path of the
    records is the name of a function of [Object.prototype]; when one is,
    such as [constructor] or [toString], the loop throws a [TypeError] and
    the producer of [getPrsByFile] rejects.  A path [__proto__] is passed
    over: it adds no key and does not stop the loop. *)
Theorem loop_returns_unless_a_path_names_a_method (prs : list Api.PullRequest) :
  (IndexBuilder.clean prs ↔ ∃ idx, IndexBuilder.build prs = Async.Fulfilled idx)
  ∧ (¬ IndexBuilder.clean prs ↔
       IndexBuilder.build prs = Async.Rejected JsObject.TypeError)
  ∧ (¬ IndexBuilder.clean prs →
       PrsByFile.producer (Async.Fulfilled prs)
       = Async.Rejected JsObject.TypeError)
  ∧ (∀ idx : gmap string (list Z),
       IndexBuilder.build prs = Async.Fulfilled idx → idx !! "__proto__" = None).
Proof.
  split; [|split; [|split]].
  - split; [apply IndexFacts.build_fulfils|].
    intros [idx Hb]. by apply (IndexFacts.build_clean _ idx).
  - split; [apply IndexFacts.build_rejects|].
    intros Hb Hc. destruct (IndexFacts.build_fulfils _ Hc) as [idx Hidx].
    congruence.
  - intros Hc. cbn [PrsByFile.producer]. by apply IndexFacts.build_rejects.
  - intros idx Hb. rewrite (IndexFacts.lookup_build _ _ "__proto__" Hb).
    by rewrite decide_False by (vm_compute; discriminate).
Qed.

Lemma loop_returns_unless_a_path_names_a_method_witness :
  IndexBuilder.build [Api.record 2 ["constructor"]; Api.record 1 ["a.ts"]]
  = Async.Rejected JsObject.TypeError
  ∧ ({[ "a.ts" := [1] ]} : gmap string (list Z)) !! "__proto__" = None.
Proof.
  split.
  - apply (proj1 (proj1 (proj2 (loop_returns_unless_a_path_names_a_method
             [Api.record 2 ["constructor"]; Api.record 1 ["a.ts"]])))).
    apply (bool_decide_unpack _). vm_compute. exact I.
  - apply (proj2 (proj2 (proj2 (loop_returns_unless_a_path_names_a_method
             [Api.record 1 ["__proto__"; "a.ts"]])))).
    vm_compute. reflexivity.
Defined.

(** ** The links of the widgets *)

Module LinkFacts.
Import Dom.

Lemma links_classList_add name node : links (classList_add name node) = links node.
Proof. by destruct node. Qed.

Lemma hrefs_set_hash (withFragment : string → string → string) (fragment : string)
    (attrs : list (string * string)) :
  snd <$> filter (λ attr, attr.1 = "href")
            ((λ attr : string * string,
                if bool_decide (attr.1 = "href")
                then (attr.1, withFragment attr.2 fragment)
                else attr) <$> attrs)
  = (λ url, withFragment url fragment)
      <$> (snd <$> filter (λ attr, attr.1 = "href") attrs).
Proof.
  induction attrs as [|[name value] attrs IH]; [done|].
  rewrite fmap_cons. cbn [fst snd]. case_bool_decide as Hname.
  - rewrite !filter_cons_True by done. rewrite !fmap_cons. cbn [snd].
    by rewrite IH.
  - by rewrite !filter_cons_False by done.
Qed.

Lemma links_set_hash (withFragment : string → string → string) (fragment : string)
    tag className attrs children :
  links (set_hash withFragment fragment (El tag className attrs children))
  = ((λ url, withFragment url fragment)
       <$> (snd <$> filter (λ attr, attr.1 = "href") attrs))
    ++ (children ≫= links).
Proof. cbn [set_hash links]. by rewrite hrefs_set_hash. Qed.

Section Render.
Variable buildRepoURL : string → Z → string → string.
Variable GitPullRequestIcon : string → Node.
Variable isChrome : bool.
Variable withFragment : string → string → string.
Hypothesis icon_has_no_link : ∀ className, links (GitPullRequestIcon className) = [].

Lemma links_getSingleButton prNumber :
  links (Feature.getSingleButton buildRepoURL GitPullRequestIcon prNumber)
  = [Feature.getPRUrl buildRepoURL prNumber].
Proof.
  unfold Feature.getSingleButton. cbn. by rewrite icon_has_no_link.
Qed.

Lemma links_groupButton path pr :
  links (Feature.groupButton buildRepoURL GitPullRequestIcon isChrome
           withFragment path pr)
  = [ if isChrome
      then withFragment (Feature.getPRUrl buildRepoURL pr)
             (String.append ":~:text=" path)
      else Feature.getPRUrl buildRepoURL pr ].
Proof.
  unfold Feature.groupButton. destruct isChrome.
  - unfold Feature.getSingleButton. cbn [classList_add].
    rewrite links_set_hash. cbn. by rewrite icon_has_no_link.
  - by rewrite links_classList_add, links_getSingleButton.
Qed.

Lemma links_items (prs : list Z) :
  ((λ prNumber,
      El "a" "dropdown-item"
        [ ("href", Feature.getPRUrl buildRepoURL prNumber);
          ("data-hovercard-url", Feature.getHovercardUrl buildRepoURL prNumber) ]
        [Text "#"; Num prNumber]) <$> prs) ≫= links
  = Feature.getPRUrl buildRepoURL <$> prs.
Proof.
  induction prs as [|pr prs IH]; [done|].
  rewrite !fmap_cons, bind_cons, IH. done.
Qed.

Lemma links_group path (prs : list Z) :
  (Feature.groupButton buildRepoURL GitPullRequestIcon isChrome withFragment path
     <$> prs) ≫= links
  = (λ pr, if isChrome
           then withFragment (Feature.getPRUrl buildRepoURL pr)
                  (String.append ":~:text=" path)
           else Feature.getPRUrl buildRepoURL pr) <$> prs.
Proof.
  induction prs as [|pr prs IH]; [done|].
  by rewrite !fmap_cons, bind_cons, IH, links_groupButton.
Qed.

Lemma links_getDropdown prs :
  links (Feature.getDropdown buildRepoURL GitPullRequestIcon prs)
  = Feature.getPRUrl buildRepoURL <$> prs.
Proof.
  unfold Feature.getDropdown. cbn [links filter list_filter fmap list_fmap app].
  rewrite !bind_cons. cbn [links filter list_filter fmap list_fmap app].
  rewrite !bind_cons, icon_has_no_link, links_items. cbn. by rewrite app_nil_r.
Qed.

Lemma links_warning path prs :
  links (Feature.warning buildRepoURL GitPullRequestIcon isChrome withFragment
           path prs)
  = match prs with
    | [prNumber] => [Feature.getPRUrl buildRepoURL prNumber]
    | _ =>
        (λ pr, if isChrome
               then withFragment (Feature.getPRUrl buildRepoURL pr)
                      (String.append ":~:text=" path)
               else Feature.getPRUrl buildRepoURL pr) <$> prs
    end.
Proof.
  unfold Feature.warning.
  destruct prs as [|n [|m rest]].
  - done.
  - done.
  - cbv beta iota.
    set (group := Feature.groupButton _ _ _ _ _ <$> _).
    cbn [links filter list_filter fmap list_fmap app].
    rewrite !bind_cons. cbn [links filter list_filter fmap list_fmap app mbind list_bind].
    subst group. rewrite links_group. by rewrite app_nil_r.
Qed.

End Render.

End LinkFacts.

(** X14. The widgets link to the pull requests they are given and to
    nothing else: provided the icon holds no link, the links of the single
    button and of the dropdown are the files pages of the given numbers,
    one per number and in their order; so are the links of the warning,
    except that for two or more numbers on Chrome each link is the files
    page with the text fragment of the path, as the hash setter of the
    anchor writes it. *)
Theorem widgets_link_to_their_prs
    (buildRepoURL : string → Z → string → string)
    (GitPullRequestIcon : string → Dom.Node) (isChrome : bool)
    (withFragment : string → string → string)
    (path : string) (prNumber : Z) (prs : list Z) :
  (∀ className, Dom.links (GitPullRequestIcon className) = []) →
  Dom.links (Feature.getSingleButton buildRepoURL GitPullRequestIcon prNumber)
  = [buildRepoURL "pull" prNumber "files"]
  ∧ Dom.links (Feature.getDropdown buildRepoURL GitPullRequestIcon prs)
    = (λ n, buildRepoURL "pull" n "files") <$> prs
  ∧ Dom.links (Feature.warning buildRepoURL GitPullRequestIcon isChrome
                 withFragment path prs)
    = match prs with
      | [n] => [buildRepoURL "pull" n "files"]
      | _ =>
          (λ n, if isChrome
                then withFragment (buildRepoURL "pull" n "files")
                       (String.append ":~:text=" path)
                else buildRepoURL "pull" n "files") <$> prs
      end.
Proof.
  intros Hicon. split; [|split].
  - by apply LinkFacts.links_getSingleButton.
  - by apply LinkFacts.links_getDropdown.
  - by apply LinkFacts.links_warning.
Qed.

Lemma widgets_link_to_their_prs_witness :
  let icon := λ className, Dom.El "svg" className [] [] in
  let url := λ (kind : string) (n : Z) (page : string),
               if Z.eqb n 10 then "/pull/10/files" else "/pull/3/files" in
  let withFragment := λ url fragment, String.append url (String.append "#" fragment) in
  Dom.links (Feature.warning url icon true withFragment "a.ts" [10; 3])
  = ["/pull/10/files#:~:text=a.ts"; "/pull/3/files#:~:text=a.ts"].
Proof.
  intros icon url withFragment.
  exact (proj2 (proj2 (widgets_link_to_their_prs url icon true withFragment
                         "a.ts" 10 [10; 3] (λ _, eq_refl)))).
Defined.

(** ** The last segment of the [pr] parameter *)

Module SegmentFacts.

Lemma append_cons c s t :
  String.append (String c s) t = String c (String.append s t).
Proof. reflexivity. Qed.

Lemma append_nil_l t : String.append EmptyString t = t.
Proof. reflexivity. Qed.

Lemma append_nil_r s : String.append s EmptyString = s.
Proof. induction s as [|c s IH]; [done|]. by rewrite append_cons, IH. Qed.

Lemma append_assoc s1 s2 s3 :
  String.append (String.append s1 s2) s3 = String.append s1 (String.append s2 s3).
Proof.
  induction s1 as [|c s1 IH]; [done|]. by rewrite !append_cons, IH.
Qed.

Lemma chars_append s1 s2 :
  String.list_ascii_of_string (String.append s1 s2)
  = String.list_ascii_of_string s1 ++ String.list_ascii_of_string s2.
Proof.
  induction s1 as [|c s1 IH]; [done|]. rewrite append_cons. cbn. by rewrite IH.
Qed.

Lemma concat_cons sep x y l :
  String.concat sep (x :: y :: l)
  = String.append x (String.append sep (String.concat sep (y :: l))).
Proof. reflexivity. Qed.

Lemma last_split_from_is_Some sep cur s : is_Some (last (Js.split_from sep cur s)).
Proof.
  destruct (FeatureFacts.split_from_snoc sep cur s) as (segments & seg & ->).
  rewrite last_snoc. by eexists.
Qed.

Lemma last_segment_from_sep sep cur s :
  default EmptyString (last (Js.split_from sep cur (String sep s)))
  = default EmptyString (last (Js.split_from sep EmptyString s)).
Proof.
  cbn [Js.split_from]. rewrite Ascii.eqb_refl, last_cons.
  by destruct (last_split_from_is_Some sep EmptyString s) as [seg ->].
Qed.

(** The string read so far and the rest make up the input, which is its
    last segment or ends with a separator followed by it. *)
Lemma last_segment_splits sep s cur :
  let seg := default EmptyString (last (Js.split_from sep cur s)) in
  String.append cur s = seg
  ∨ ∃ front, String.append cur s = String.append front (String sep seg).
Proof.
  revert cur. induction s as [|c s IH]; intros cur.
  - left. cbn. apply append_nil_r.
  - destruct (Ascii.eqb_spec c sep) as [->|Hne].
    + cbv zeta. rewrite last_segment_from_sep. right.
      destruct (IH EmptyString) as [Hs|[front Hs]]; cbn [String.append] in Hs.
      * exists cur. by rewrite <-Hs.
      * exists (String.append cur (String sep front)).
        rewrite Hs at 1. by rewrite append_assoc.
    + cbv zeta. cbn [Js.split_from].
      rewrite (proj2 (Ascii.eqb_neq c sep) Hne).
      specialize (IH (String.append cur (String c EmptyString))).
      cbv zeta in IH. by rewrite append_assoc in IH.
Qed.

Lemma split_from_no_sep sep s cur :
  sep ∉ String.list_ascii_of_string cur →
  Forall (λ seg, sep ∉ String.list_ascii_of_string seg) (Js.split_from sep cur s).
Proof.
  revert cur. induction s as [|c s IH]; intros cur Hcur; cbn [Js.split_from].
  - by constructor.
  - destruct (Ascii.eqb_spec c sep) as [->|Hne].
    + constructor; [done|]. apply IH. cbn. apply not_elem_of_nil.
    + apply IH. rewrite chars_append. cbn.
      rewrite not_elem_of_app, not_elem_of_cons. split; [done|].
      split; [congruence|apply not_elem_of_nil].
Qed.

Lemma concat_split_from sep s cur :
  String.concat (String sep EmptyString) (Js.split_from sep cur s)
  = String.append cur s.
Proof.
  revert cur. induction s as [|c s IH]; intros cur; cbn [Js.split_from].
  - cbn. by rewrite append_nil_r.
  - destruct (Ascii.eqb_spec c sep) as [->|Hne].
    + specialize (IH EmptyString).
      destruct (Js.split_from sep EmptyString s) as [|seg segs] eqn:E.
      { destruct (last_split_from_is_Some sep EmptyString s) as [? Hlast].
        by rewrite E in Hlast. }
      rewrite concat_cons, IH. by rewrite append_nil_l, append_cons.
    + by rewrite IH, append_assoc.
Qed.

End SegmentFacts.

(** X15. The pull request number of the [pr] parameter is read from the
    part after its last slash: the array converted to a number holds that
    one segment, which contains no slash and ends the parameter, the whole
    parameter when it has no slash; and joining the segments of the
    parameter with slashes gives the parameter back. *)
Theorem pr_parameter_last_segment (value : string) :
  let seg := Js.last_segment "/" value in
  Feature.editingPRNumber (Some value) = Some [seg]
  ∧ ("/"%char ∉ String.list_ascii_of_string seg)
  ∧ (value = seg ∨ ∃ front, value = String.append front (String "/" seg))
  ∧ String.concat "/" (Js.split "/" value) = value.
Proof.
  intros seg. split; [|split; [|split]].
  - unfold Feature.editingPRNumber. cbn [fmap option_fmap option_map].
    by rewrite FeatureFacts.slice_last_split.
  - subst seg. unfold Js.last_segment, Js.split.
    pose proof (SegmentFacts.split_from_no_sep "/" value EmptyString) as Hall.
    destruct (FeatureFacts.split_from_snoc "/" EmptyString value)
      as (segments & last & Hsplit).
    rewrite Hsplit in *. rewrite last_snoc. cbn [default].
    apply Forall_app in Hall as [_ Hlast]; [|apply not_elem_of_nil].
    unfold id. exact (proj1 (Forall_singleton _ _) Hlast).
  - apply (SegmentFacts.last_segment_splits "/" value EmptyString).
  - apply (SegmentFacts.concat_split_from "/" value EmptyString).
Qed.

